(** * ecl2df.wellconnstatus: status-change extraction for well connections

    Shallow embedding of [src/ecl2df/wellconnstatus.py] and the properties of
    its transition detector [_get_status_changes], of [df] (key selection by
    the CPI pattern, key parsing, row loop) and of the UNSMRY file name that
    [wellconnstatus_main] computes.

    - A CPI vector is a [numpy] array of IEEE-754 binary64 numbers; a value
      is a [spec_float], so that infinities, NaN and the two zeros are
      present and [>] and [==] are the IEEE comparisons.
    - A date is opaque to the code (typed [Any]); the detector is
      polymorphic in it.
    - A status is the string the code appends, ["OPEN"] or ["SHUT"]. *)

From Stdlib Require Import ZArith Ascii Floats.SpecFloat.
From stdpp Require Import base list strings sorting.

(** ** numpy.float64 values and the comparisons the code uses *)

Definition float64 : Type := spec_float.

(** [float(z)] for a Python int, rounded to binary64. *)
Definition float64_of_Z (z : Z) : float64 := binary_normalize 53 1024 z 0 false.

(** The Python literal [0]; in a comparison with a float64 it is [+0.0]. *)
Definition py_zero : float64 := S754_zero false.

(** [x > y], [x == y], [x <= y], [x < y] on float64 (all false on NaN). *)
Definition float_gt (x y : float64) : bool := SFltb y x.
Definition float_eq (x y : float64) : bool := SFeqb x y.
Definition float_le (x y : float64) : bool := SFleb x y.
Definition float_lt (x y : float64) : bool := SFltb x y.

Declare Scope float64_scope.
Delimit Scope float64_scope with f64.
Notation "x >? y" := (float_gt x y) (at level 70, no associativity) : float64_scope.
Notation "x =? y" := (float_eq x y) (at level 70, no associativity) : float64_scope.
Notation "x <=? y" := (float_le x y) (at level 70, no associativity) : float64_scope.
Notation "x <? y" := (float_lt x y) (at level 70, no associativity) : float64_scope.

(** ** Outcome of a Python call: it returns a value or raises. *)

Inductive outcome (A : Type) : Type :=
  | Returns (x : A)
  | Raises (exc : string).
Arguments Returns {A} x.
Arguments Raises {A} exc.

Definition outcome_bind {A B : Type} (o : outcome A) (k : A → outcome B) : outcome B :=
  match o with
  | Returns x => k x
  | Raises exc => Raises exc
  end.

Definition raises {A : Type} (o : outcome A) : Prop := ∃ exc, o = Raises exc.

(** ** The transition detector, [_get_status_changes] *)

Section TransitionDetector.
Context {date : Type}.

(** The two locals of the loop: the list being built and [prev_value]. *)
Record loop_state : Type := LoopState {
  status_changes : list (date * string);
  prev_value : float64
}.

(** One iteration of [for date, value in zip(dates, conn_values)]. *)
Definition loop_body (st : loop_state) (dv : date * float64) : loop_state :=
  let '(d, value) := dv in
  let status_changes' :=
    if ((value >? py_zero) && (prev_value st =? py_zero))%f64 then
      status_changes st ++ [(d, "OPEN")]
    else if ((prev_value st >? py_zero) && (value =? py_zero))%f64 then
      status_changes st ++ [(d, "SHUT")]
    else
      status_changes st in
  {| status_changes := status_changes'; prev_value := value |}.

Definition _get_status_changes (dates : list date) (conn_values : list float64)
  : list (date * string) :=
  status_changes
    (fold_left loop_body (zip dates conn_values)
       {| status_changes := []; prev_value := py_zero |}).

(** The call as Python sees it: the body has no [raise], and [zip], the
    float comparisons and [list.append] do not raise either. *)
Definition call_get_status_changes (dates : list date) (conn_values : list float64)
  : outcome (list (date * string)) :=
  Returns (_get_status_changes dates conn_values).

End TransitionDetector.

Arguments loop_state : clear implicits.

(** ** The row loop of [df]

    [EclSum] and the column discovery are outside the module; a matched
    column arrives as its parsed key (well, i, j, k) and its vector. *)

Record cpi_column : Type := CpiColumn {
  well : string;
  cell_i : string;
  cell_j : string;
  cell_k : string;
  vector : list float64
}.

(** A row of the data frame: (DATE, WELL, I, J, K, OP/SH). *)
Definition row (date : Type) : Type := (date * string * string * string * string * string)%type.

Definition tag_row {date : Type} (col : cpi_column) (ev : date * string) : row date :=
  (ev.1, well col, cell_i col, cell_j col, cell_k col, ev.2).

(** The body of [for col in cpi_columns], appending to the frame's rows. *)
Definition df_column {date : Type} (np_dates_ms : list date)
    (rows : list (row date)) (col : cpi_column) : outcome (list (row date)) :=
  outcome_bind (call_get_status_changes np_dates_ms (vector col)) (λ status_changes,
    Returns (fold_left (λ acc ev, acc ++ [tag_row col ev]) status_changes rows)).

Fixpoint df_columns {date : Type} (np_dates_ms : list date)
    (rows : list (row date)) (cpi_columns : list cpi_column) : outcome (list (row date)) :=
  match cpi_columns with
  | [] => Returns rows
  | col :: rest =>
      outcome_bind (df_column np_dates_ms rows col) (λ rows', df_columns np_dates_ms rows' rest)
  end.

Definition df {date : Type} (np_dates_ms : list date) (cpi_columns : list cpi_column)
  : outcome (list (row date)) :=
  df_columns np_dates_ms [] cpi_columns.

(** ** Definitions that follow the specification's words

    They are what the code's definitions above are compared with. *)

Section SpecWords.
Context {date : Type}.

(** Spec 4.1, the three cases at index [t], given [previous_value]. *)
Definition spec_emit (timestamps : list date) (values : list float64)
    (previous_value : float64) (t : nat) : list (date * string) :=
  match timestamps !! t, values !! t with
  | Some d, Some v =>
      if ((v >? py_zero) && (previous_value =? py_zero))%f64 then [(d, "OPEN")]
      else if ((previous_value >? py_zero) && (v =? py_zero))%f64 then [(d, "SHUT")]
      else []
  | _, _ => []
  end.

(** Spec 4.1: emit at index [t], then set [previous_value = values[t]]. *)
Definition spec_step (timestamps : list date) (values : list float64)
    (acc : list (date * string) * float64) (t : nat) : list (date * string) * float64 :=
  (acc.1 ++ spec_emit timestamps values acc.2 t, default acc.2 (values !! t)).

(** Spec 4.1: indices 0..N-1 in order, [previous_value] initialized to 0;
    the result is the emitted events in scan order. *)
Definition spec_transition_detector (timestamps : list date) (values : list float64)
  : list (date * string) :=
  (fold_left (spec_step timestamps values) (seq 0 (length values)) ([], py_zero)).1.

End SpecWords.

(** Spec 4.1: "treat any value <= 0 as equivalent to 0": the series with
    every value [<= 0] replaced by exactly 0. *)
Definition spec_clamp (v : float64) : float64 :=
  if (v <=? py_zero)%f64 then py_zero else v.

(** ** Derived notions used to state the properties *)

(** The detector run on the indices themselves: the triggering index of
    every event, with its status. *)
Definition status_change_indices {date : Type} (dates : list date)
    (conn_values : list float64) : list (nat * string) :=
  _get_status_changes (seq 0 (length dates)) conn_values.

(** A list of statuses that alternates; [next_open] tells which one is due. *)
Fixpoint alternates (next_open : bool) (statuses : list string) : Prop :=
  match statuses with
  | [] => True
  | s :: rest => s = (if next_open then "OPEN" else "SHUT") ∧ alternates (negb next_open) rest
  end.

(** What one iteration appends, and the events of a scan that starts with a
    given [prev_value]. *)
Definition emitted {date : Type} (prev : float64) (dv : date * float64) : list (date * string) :=
  if ((dv.2 >? py_zero) && (prev =? py_zero))%f64 then [(dv.1, "OPEN")]
  else if ((prev >? py_zero) && (dv.2 =? py_zero))%f64 then [(dv.1, "SHUT")]
  else [].

Fixpoint events_from {date : Type} (prev : float64) (dvs : list (date * float64))
  : list (date * string) :=
  match dvs with
  | [] => []
  | dv :: rest => emitted prev dv ++ events_from dv.2 rest
  end.

(** A value is non-negative: [0 <= v] (so it is not NaN either). *)
Definition nonnegative (v : float64) : Prop := (py_zero <=? v)%f64 = true.

(** A column whose vector is one observation longer than a two-date axis. *)
Definition long_column : cpi_column :=
  {| well := "W1"; cell_i := "1"; cell_j := "1"; cell_k := "1";
     vector := float64_of_Z <$> [0; 5; 0]%Z |}.

(** ** Notions used to state further properties of the detector *)

(** [prev_value] when the loop reaches index [t]: the literal 0 at the first
    index, the value at index [t - 1] afterwards. *)
Definition value_before (conn_values : list float64) (t : nat) : float64 :=
  match t with
  | 0 => py_zero
  | S t' => default py_zero (conn_values !! t')
  end.

(** The condition under which the loop body appends an event of status [s]. *)
Definition fires (prev value : float64) (s : string) : Prop :=
  (s = "OPEN" ∧ (value >? py_zero)%f64 = true ∧ (prev =? py_zero)%f64 = true)
  ∨ (s = "SHUT" ∧ (prev >? py_zero)%f64 = true ∧ (value =? py_zero)%f64 = true).

(** The rows one column contributes to the frame. *)
Definition column_rows {date : Type} (np_dates_ms : list date) (col : cpi_column)
  : list (row date) :=
  tag_row col <$> _get_status_changes np_dates_ms (vector col).

(** ** [str.replace], [str.split] and the file name of [wellconnstatus_main] *)

(** [old in s]: [old] occurs in [s] as a substring. *)
Fixpoint str_contains (old s : string) : bool :=
  String.prefix old s
  || match s with
     | EmptyString => false
     | String _ rest => str_contains old rest
     end.

(** [s.replace(old, new)] for a non-empty [old]: scan from the left; where
    [old] starts, emit [new] and pass over [old]. [skip] counts the
    characters of a replaced occurrence that are still to be passed over. *)
Fixpoint str_replace_from (old new : string) (skip : nat) (s : string) : string :=
  match s with
  | EmptyString => EmptyString
  | String c rest =>
      match skip with
      | S skip' => str_replace_from old new skip' rest
      | 0 =>
          if String.prefix old s
          then new +:+ str_replace_from old new (String.length old - 1) rest
          else String c (str_replace_from old new 0 rest)
      end
  end.

Definition str_replace (old new s : string) : string := str_replace_from old new 0 s.

(** [unsmry_file = args.DATAFILE.replace(".DATA", ".UNSMRY")]. *)
Definition unsmry_file (DATAFILE : string) : string :=
  str_replace ".DATA" ".UNSMRY" DATAFILE.

(** [s.split(sep)] for a one-character separator: one field more than there
    are separators, empty fields kept. *)
Fixpoint str_split (sep : ascii) (s : string) : list string :=
  match s with
  | EmptyString => [EmptyString]
  | String c rest =>
      if Ascii.eqb c sep then EmptyString :: str_split sep rest
      else match str_split sep rest with
           | field :: fields => String c field :: fields
           | [] => [String c EmptyString]
           end
  end.

(** ** Regular expressions: the fragment of [re] that [df] uses *)

Inductive regex : Type :=
  | re_none
  | re_eps
  | re_char (c : ascii)
  | re_range (lo hi : ascii)
  | re_alt (r1 r2 : regex)
  | re_seq (r1 r2 : regex)
  | re_star (r : regex).

(** [c] is in the character range [lo-hi]. *)
Definition char_in_range (lo hi c : ascii) : bool :=
  (nat_of_ascii lo <=? nat_of_ascii c) && (nat_of_ascii c <=? nat_of_ascii hi).

(** The strings a regular expression denotes. *)
Inductive re_lang : regex → string → Prop :=
  | lang_eps : re_lang re_eps EmptyString
  | lang_char c : re_lang (re_char c) (String c EmptyString)
  | lang_range lo hi c :
      char_in_range lo hi c = true → re_lang (re_range lo hi) (String c EmptyString)
  | lang_alt_l r1 r2 s : re_lang r1 s → re_lang (re_alt r1 r2) s
  | lang_alt_r r1 r2 s : re_lang r2 s → re_lang (re_alt r1 r2) s
  | lang_seq r1 r2 s1 s2 :
      re_lang r1 s1 → re_lang r2 s2 → re_lang (re_seq r1 r2) (s1 +:+ s2)
  | lang_star_nil r : re_lang (re_star r) EmptyString
  | lang_star_more r s1 s2 :
      re_lang r s1 → re_lang (re_star r) s2 → re_lang (re_star r) (s1 +:+ s2).

(** Matching by derivatives. *)
Fixpoint re_nullable (r : regex) : bool :=
  match r with
  | re_none | re_char _ | re_range _ _ => false
  | re_eps | re_star _ => true
  | re_alt r1 r2 => re_nullable r1 || re_nullable r2
  | re_seq r1 r2 => re_nullable r1 && re_nullable r2
  end.

Fixpoint re_deriv (c : ascii) (r : regex) : regex :=
  match r with
  | re_none | re_eps => re_none
  | re_char c' => if Ascii.eqb c' c then re_eps else re_none
  | re_range lo hi => if char_in_range lo hi c then re_eps else re_none
  | re_alt r1 r2 => re_alt (re_deriv c r1) (re_deriv c r2)
  | re_seq r1 r2 =>
      if re_nullable r1
      then re_alt (re_seq (re_deriv c r1) r2) (re_deriv c r2)
      else re_seq (re_deriv c r1) r2
  | re_star r' => re_seq (re_deriv c r') (re_star r')
  end.

Fixpoint re_fullmatch (r : regex) (s : string) : bool :=
  match s with
  | EmptyString => re_nullable r
  | String c rest => re_fullmatch (re_deriv c r) rest
  end.

(** Literal text, [r+], [r?] and [r{lo,hi}]. *)
Fixpoint re_str (s : string) : regex :=
  match s with
  | EmptyString => re_eps
  | String c rest => re_seq (re_char c) (re_str rest)
  end.

Definition re_plus (r : regex) : regex := re_seq r (re_star r).

Definition re_opt (r : regex) : regex := re_alt re_eps r.

Fixpoint re_times (n : nat) (r : regex) : regex :=
  match n with
  | 0 => re_eps
  | S n' => re_seq r (re_times n' r)
  end.

Fixpoint re_upto (n : nat) (r : regex) : regex :=
  match n with
  | 0 => re_eps
  | S n' => re_opt (re_seq r (re_upto n' r))
  end.

Definition re_repeat (lo hi : nat) (r : regex) : regex :=
  re_seq (re_times lo r) (re_upto (hi - lo) r).

(** [$] closing a pattern: the end of the string, or the position just
    before a newline that ends the string. *)
Definition re_dollar : regex := re_opt (re_char "010").

(** [[A-Z0-9_-]] and [[0-9]]. *)
Definition well_class : regex :=
  re_alt (re_range "A" "Z") (re_alt (re_range "0" "9") (re_alt (re_char "_") (re_char "-"))).

Definition digit_class : regex := re_range "0" "9".

(** ["^CPI:[A-Z0-9_-]{1,8}:[0-9]+,[0-9]+,[0-9]+$"]. *)
Definition cpi_pattern : regex :=
  re_seq (re_str "CPI:")
    (re_seq (re_repeat 1 8 well_class)
       (re_seq (re_char ":")
          (re_seq (re_plus digit_class)
             (re_seq (re_char ",")
                (re_seq (re_plus digit_class)
                   (re_seq (re_char ",")
                      (re_seq (re_plus digit_class) re_dollar))))))).

(** [re.match(pattern, col)] is not None. The match is anchored at the
    start, and the closing [$] lets it end only at the end of [col], so it
    succeeds exactly when the whole of [col] is in the pattern's language. *)
Definition is_cpi_column (col : string) : bool := re_fullmatch cpi_pattern col.

(** ** [df] from the loaded summary

    What [df] reads from [EclSum]: the keys, in the iteration order of
    [set(EclSumKeyWordVector(eclsum, add_keywords=True))], the date axis and
    the vector of a key. *)

Record ecl_sum (date : Type) : Type := EclSumData {
  column_names : list string;
  numpy_dates : list date;
  numpy_vector : string → list float64
}.
Arguments column_names {date} _.
Arguments numpy_dates {date} _.
Arguments numpy_vector {date} _ _.

(** Lines 38-42: [colsplit = col.split(":")], [well = colsplit[1]],
    [i, j, k = colsplit[2].split(",")], [vector = eclsum.numpy_vector(col)].
    Indexing past the end raises IndexError, unpacking anything but three
    fields raises ValueError. *)
Definition parse_column (vector_of : string → list float64) (col : string)
  : outcome cpi_column :=
  let colsplit := str_split ":" col in
  match colsplit !! 1 with
  | None => Raises "IndexError"
  | Some well =>
      match colsplit !! 2 with
      | None => Raises "IndexError"
      | Some cell =>
          match str_split "," cell with
          | [i; j; k] =>
              Returns {| well := well; cell_i := i; cell_j := j; cell_k := k;
                         vector := vector_of col |}
          | _ => Raises "ValueError"
          end
      end
  end.

(** The loop [for col in cpi_columns] over the selected keys. *)
Fixpoint df_keys {date : Type} (np_dates_ms : list date)
    (vector_of : string → list float64) (rows : list (row date))
    (cpi_columns : list string) : outcome (list (row date)) :=
  match cpi_columns with
  | [] => Returns rows
  | col :: rest =>
      outcome_bind (parse_column vector_of col) (λ parsed,
      outcome_bind (df_column np_dates_ms rows parsed) (λ rows',
      df_keys np_dates_ms vector_of rows' rest))
  end.

(** [df], from line 27 on: select the keys that match, then loop. *)
Definition df_of_eclsum {date : Type} (eclsum : ecl_sum date) : outcome (list (row date)) :=
  df_keys (numpy_dates eclsum) (numpy_vector eclsum) []
    (List.filter is_cpi_column (column_names eclsum)).

(** ** Notions used to state the properties of the key selection *)

(** Every character of [s] satisfies [p]. *)
Fixpoint all_chars (p : ascii → bool) (s : string) : bool :=
  match s with
  | EmptyString => true
  | String c rest => p c && all_chars p rest
  end.

Definition is_digit (c : ascii) : bool := char_in_range "0" "9" c.

Definition is_well_char (c : ascii) : bool :=
  char_in_range "A" "Z" c || char_in_range "0" "9" c || Ascii.eqb "_" c || Ascii.eqb "-" c.

(** A non-empty string of decimal digits. *)
Definition digits (s : string) : Prop := s ≠ EmptyString ∧ all_chars is_digit s = true.

(** A well name: 1 to 8 characters among A-Z, 0-9, underscore and hyphen. *)
Definition well_name (s : string) : Prop :=
  1 ≤ String.length s ≤ 8 ∧ all_chars is_well_char s = true.

(** Nothing, or one newline. *)
Definition optional_newline (s : string) : Prop :=
  s = EmptyString ∨ s = String "010" EmptyString.

(** The key with well [w], cell [i], [j], [k] and ending [nl]. *)
Definition cpi_key (w i j k nl : string) : string :=
  "CPI:" +:+ w +:+ ":" +:+ i +:+ "," +:+ j +:+ "," +:+ k +:+ nl.

(** ** Notions used to state the detector's result index by index *)

(** The event that index [t] triggers: what the loop body appends for the
    pair at [t], given the value before it; nothing where a sequence has no
    element at [t]. *)
Definition event_at {date : Type} (dates : list date) (conn_values : list float64)
    (t : nat) : list (date * string) :=
  match dates !! t, conn_values !! t with
  | Some d, Some v => emitted (value_before conn_values t) (d, v)
  | _, _ => []
  end.

(** A positive value directly followed by a negative one, or a negative
    value directly followed by a positive one. *)
Definition clash_pair (v1 v2 : float64) : bool :=
  ((v1 >? py_zero) && (v2 <? py_zero))%f64 || ((v1 <? py_zero) && (v2 >? py_zero))%f64.

(** Somewhere in the series a negative value stands next to a positive one. *)
Fixpoint sign_clash (values : list float64) : bool :=
  match values with
  | [] => false
  | v1 :: rest =>
      match rest with
      | [] => false
      | v2 :: _ => clash_pair v1 v2
      end || sign_clash rest
  end.

(** ** The loop at the level of the iterator protocol *)

(** [next(it)] on the iterator of a sequence: the next element and the
    advanced iterator, or [None] for StopIteration. *)
Definition iter_next {A : Type} (it : list A) : option (A * list A) :=
  match it with
  | [] => None
  | x :: it' => Some (x, it')
  end.

(** [next] on [zip(dates, conn_values)]: it asks the first iterator, then
    the second, and is exhausted as soon as one of them is. *)
Definition zip_next {A B : Type} (its : list A * list B)
  : option ((A * B) * (list A * list B)) :=
  match iter_next its.1 with
  | None => None
  | Some (x, it1) =>
      match iter_next its.2 with
      | None => None
      | Some (y, it2) => Some ((x, y), (it1, it2))
      end
  end.

(** The [for] statement, allowed [fuel] calls of [next]: the locals at the
    end and the number of times the body ran, or [None] if the fuel runs out
    before the iterator is exhausted. *)
Fixpoint for_loop {date : Type} (fuel : nat) (its : list date * list float64)
    (st : loop_state date) (iterations : nat) : option (loop_state date * nat) :=
  match fuel with
  | 0 => None
  | S fuel' =>
      match zip_next its with
      | None => Some (st, iterations)
      | Some (dv, its') => for_loop fuel' its' (loop_body st dv) (S iterations)
      end
  end.

Definition run_get_status_changes {date : Type} (fuel : nat) (dates : list date)
    (conn_values : list float64) : option (list (date * string) * nat) :=
  match for_loop fuel (dates, conn_values)
          {| status_changes := []; prev_value := py_zero |} 0 with
  | Some (st, iterations) => Some (status_changes st, iterations)
  | None => None
  end.

(** * Properties *)

(** ** Sign facts of float64 against the literal 0 *)

Section Signs.
Local Open Scope f64.

Lemma float_gt_not_eq v : (v >? py_zero) = true → (v =? py_zero) = false.
Proof. by destruct v as [[]|[]| |[] ? ?]. Qed.

Lemma float_eq_not_gt v : (v =? py_zero) = true → (v >? py_zero) = false.
Proof. by destruct v as [[]|[]| |[] ? ?]. Qed.

Lemma float_nonneg_cases v :
  (py_zero <=? v) = true → (v >? py_zero) = negb (v =? py_zero).
Proof. by destruct v as [[]|[]| |[] ? ?]. Qed.

Lemma float_nonpos_not_gt v : (v <=? py_zero) = true → (v >? py_zero) = false.
Proof. by destruct v as [[]|[]| |[] ? ?]. Qed.

Lemma float_lt_not_gt_eq v :
  (v <? py_zero) = true → (v >? py_zero) = false ∧ (v =? py_zero) = false.
Proof. by destruct v as [[]|[]| |[] ? ?]. Qed.

Lemma spec_clamp_gt v : (spec_clamp v >? py_zero) = (v >? py_zero).
Proof. by destruct v as [[]|[]| |[] ? ?]. Qed.

End Signs.

(** ** The loop as a scan *)

Section Scan.
Context {date : Type}.
Implicit Types (dv : date * float64) (dvs : list (date * float64)).
Implicit Types (st : loop_state date) (prev : float64).

Lemma loop_body_status_changes st dv :
  status_changes (loop_body st dv) = status_changes st ++ emitted (prev_value st) dv.
Proof.
  destruct dv as [d value]. unfold loop_body, emitted. simpl.
  repeat case_match; by rewrite ?app_nil_r.
Qed.

Lemma loop_body_prev_value st dv : prev_value (loop_body st dv) = dv.2.
Proof. by destruct dv. Qed.

Lemma fold_loop_body_status_changes dvs st :
  status_changes (fold_left loop_body dvs st)
  = status_changes st ++ events_from (prev_value st) dvs.
Proof.
  revert st. induction dvs as [|dv dvs IH]; intros st; simpl.
  - by rewrite app_nil_r.
  - rewrite IH, loop_body_status_changes, loop_body_prev_value.
    by rewrite <-app_assoc.
Qed.

Lemma fold_loop_body_prev_value dvs st :
  prev_value (fold_left loop_body dvs st) = default (prev_value st) (last dvs.*2).
Proof.
  revert st. induction dvs as [|dv dvs IH]; intros st; [done|].
  simpl fold_left. rewrite IH, loop_body_prev_value.
  rewrite fmap_cons, last_cons. by destruct (last dvs.*2).
Qed.

Lemma get_status_changes_scan (dates : list date) conn_values :
  _get_status_changes dates conn_values = events_from py_zero (zip dates conn_values).
Proof. unfold _get_status_changes. by rewrite fold_loop_body_status_changes. Qed.

Lemma events_from_app prev dvs1 dvs2 :
  events_from prev (dvs1 ++ dvs2)
  = events_from prev dvs1 ++ events_from (default prev (last dvs1.*2)) dvs2.
Proof.
  revert prev. induction dvs1 as [|dv dvs1 IH]; intros prev; [done|].
  cbn [app events_from]. rewrite IH, <-app_assoc. do 2 f_equal.
  rewrite fmap_cons, last_cons. by destruct (last dvs1.*2).
Qed.

Lemma Forall_zip_snd (P : float64 → Prop) (dates : list date) conn_values :
  Forall P conn_values → Forall (λ dv, P dv.2) (zip dates conn_values).
Proof.
  intros H. revert dates. induction H as [|v vs Hv _ IH]; intros [|d ds]; simpl; auto.
Qed.

Lemma zip_take_min (dates : list date) (conn_values : list float64) :
  zip (take (length dates `min` length conn_values) dates)
      (take (length dates `min` length conn_values) conn_values)
  = zip dates conn_values.
Proof.
  revert conn_values. induction dates as [|d ds IH]; intros [|v vs]; simpl; try done.
  f_equal. apply IH.
Qed.

Lemma fst_zip_take (dates : list date) (conn_values : list float64) :
  (zip dates conn_values).*1 = take (length conn_values) dates.
Proof.
  revert conn_values. induction dates as [|d ds IH]; intros [|v vs]; simpl; try done.
  f_equal. apply IH.
Qed.

Lemma events_from_dates_sublist prev dvs : (events_from prev dvs).*1 `sublist_of` dvs.*1.
Proof.
  revert prev. induction dvs as [|dv dvs IH]; intros prev; simpl; [done|].
  rewrite fmap_app. unfold emitted.
  repeat case_match; simpl; first [by apply sublist_skip | by apply sublist_cons].
Qed.

Lemma events_from_length prev dvs : length (events_from prev dvs) ≤ length dvs.
Proof.
  rewrite <-(length_fmap fst (events_from prev dvs)), <-(length_fmap fst dvs).
  apply sublist_length, events_from_dates_sublist.
Qed.

End Scan.

(** ** Scans that emit nothing *)

Section Quiet.
Context {date : Type}.
Implicit Types (dvs : list (date * float64)) (prev : float64).
Local Open Scope f64.

Lemma events_from_nonpositive prev dvs :
  (prev >? py_zero) = false →
  Forall (λ dv, (dv.2 <=? py_zero) = true) dvs →
  events_from prev dvs = [].
Proof.
  intros Hprev Hall. revert prev Hprev.
  induction Hall as [|dv dvs Hdv _ IH]; intros prev Hprev; [done|].
  apply float_nonpos_not_gt in Hdv. simpl. unfold emitted.
  by rewrite Hdv, Hprev, (IH _ Hdv).
Qed.

Lemma events_from_positive prev dvs :
  (prev >? py_zero) = true →
  Forall (λ dv, (dv.2 >? py_zero) = true) dvs →
  events_from prev dvs = [].
Proof.
  intros Hprev Hall. revert prev Hprev.
  induction Hall as [|dv dvs Hdv _ IH]; intros prev Hprev; [done|].
  simpl. unfold emitted.
  rewrite (float_gt_not_eq _ Hprev), (float_gt_not_eq _ Hdv), !andb_false_r.
  by apply IH.
Qed.
End Quiet.

(** C8: on values [0,0,5,5,0,3,0] with timestamps t0..t6 the detector
    returns exactly (t2, OPEN), (t4, SHUT), (t5, OPEN), (t6, SHUT), in that
    order. *)
Theorem scenario_1_events {date : Type} (t0 t1 t2 t3 t4 t5 t6 : date) :
  _get_status_changes [t0; t1; t2; t3; t4; t5; t6]
    (float64_of_Z <$> [0; 0; 5; 5; 0; 3; 0]%Z)
  = [(t2, "OPEN"); (t4, "SHUT"); (t5, "OPEN"); (t6, "SHUT")].
Proof. reflexivity. Qed.

(** C5: a series whose values are all [<= 0] (the all-zero series and the
    empty series included) yields no event at all, so its column adds no
    row to the frame. *)
Theorem all_nonpositive_no_events {date : Type} (dates : list date)
    (rows : list (row date)) (col : cpi_column) :
  Forall (λ v, (v <=? py_zero)%f64 = true) (vector col) →
  _get_status_changes dates (vector col) = []
  ∧ df_column dates rows col = Returns rows.
Proof.
  intros Hall.
  assert (Hnone : _get_status_changes dates (vector col) = []).
  { rewrite get_status_changes_scan.
    apply events_from_nonpositive; [done|].
    by apply (Forall_zip_snd (λ v, (v <=? py_zero)%f64 = true)). }
  split; [done|].
  unfold df_column, call_get_status_changes. simpl. by rewrite Hnone.
Qed.

Lemma all_nonpositive_no_events_witness :
  _get_status_changes [10; 20; 30; 40]%Z
    (vector (CpiColumn "W1" "1" "1" "1"
       [float64_of_Z 0; float64_of_Z (-2); S754_zero true; S754_infinity true]))
  = [].
Proof.
  refine (proj1 (all_nonpositive_no_events [10; 20; 30; 40]%Z []
    (CpiColumn "W1" "1" "1" "1"
       [float64_of_Z 0; float64_of_Z (-2); S754_zero true; S754_infinity true]) _)).
  repeat constructor.
Defined.

(** C6: a non-empty series whose values are all [> 0] yields exactly one
    event, OPEN at the first timestamp, and so no SHUT event. *)
Theorem all_positive_single_open {date : Type} (t0 : date) (dates : list date)
    (conn_values : list float64) :
  length (t0 :: dates) = length conn_values →
  Forall (λ v, (v >? py_zero)%f64 = true) conn_values →
  _get_status_changes (t0 :: dates) conn_values = [(t0, "OPEN")].
Proof.
  intros Hlen Hall. rewrite get_status_changes_scan.
  destruct conn_values as [|v vs]; [done|].
  apply Forall_cons in Hall as [Hv Hvs]. simpl. unfold emitted. simpl.
  rewrite Hv. simpl. f_equal.
  apply events_from_positive; [done|].
  by apply (Forall_zip_snd (λ v, (v >? py_zero)%f64 = true)).
Qed.

Lemma all_positive_single_open_witness :
  _get_status_changes [10; 20; 30]%Z (float64_of_Z <$> [7; 7; 7]%Z) = [(10%Z, "OPEN")].
Proof.
  apply (all_positive_single_open 10%Z [20; 30]%Z (float64_of_Z <$> [7; 7; 7]%Z)).
  - reflexivity.
  - repeat constructor.
Defined.

(** ** Mismatched lengths *)

Lemma status_change_indices_bound {date : Type} (dates : list date)
    (conn_values : list float64) :
  Forall (λ e, e.1 < length dates `min` length conn_values)
    (status_change_indices dates conn_values).
Proof.
  unfold status_change_indices. rewrite get_status_changes_scan.
  apply Forall_forall. intros e He.
  apply (list_elem_of_fmap_2 fst) in He.
  eapply elem_of_sublist in He; [|apply events_from_dates_sublist].
  rewrite fst_zip_take in He.
  apply list_elem_of_lookup in He as [j Hj].
  apply lookup_take_Some in Hj as [Hj Hlt].
  apply lookup_seq in Hj as [-> Hj]. simpl. lia.
Qed.

Lemma get_status_changes_take_min {date : Type} (dates : list date)
    (conn_values : list float64) :
  _get_status_changes (take (length dates `min` length conn_values) dates)
    (take (length dates `min` length conn_values) conn_values)
  = _get_status_changes dates conn_values.
Proof. unfold _get_status_changes. by rewrite zip_take_min. Qed.

Lemma fold_left_append_rows {date : Type} (col : cpi_column)
    (events : list (date * string)) (rows : list (row date)) :
  fold_left (λ acc ev, acc ++ [tag_row col ev]) events rows
  = rows ++ (tag_row col <$> events).
Proof.
  revert rows. induction events as [|ev events IH]; intros rows; simpl.
  - by rewrite app_nil_r.
  - by rewrite IH, <-app_assoc.
Qed.

(** C4, as stated, fails: with two dates and a vector of three values the
    column is processed without any error; the third value (the SHUT) is
    dropped. *)
Lemma mismatched_lengths_not_surfaced :
  ¬ (length [10; 20]%Z ≠ length (vector long_column) →
     raises (df_column [10; 20]%Z [] long_column)).
Proof.
  intros Hclaim. destruct Hclaim as [exc Hexc]; [by vm_compute|].
  vm_compute in Hexc. discriminate Hexc.
Qed.

(** C4, amended: mismatched lengths are not detected. Processing a column
    never raises; it appends the events of the first
    min(len(dates), len(vector)) index-aligned pairs, tagged with the
    column's key, and so truncates to the shorter sequence. *)
Theorem df_column_truncates_silently {date : Type} (np_dates_ms : list date)
    (rows : list (row date)) (col : cpi_column) :
  let m := length np_dates_ms `min` length (vector col) in
  df_column np_dates_ms rows col
  = Returns (rows ++ (tag_row col <$>
               _get_status_changes (take m np_dates_ms) (take m (vector col))))
  ∧ ¬ raises (df_column np_dates_ms rows col).
Proof.
  intros m. subst m. unfold df_column, call_get_status_changes. simpl. split.
  - by rewrite fold_left_append_rows, get_status_changes_take_min.
  - by intros [exc Hexc].
Qed.

(** ** Values that are neither positive nor zero *)

Section Clamp.
Context {date : Type}.
Implicit Types (dvs : list (date * float64)) (prev : float64).
Local Open Scope f64.

Lemma zip_fmap_clamp (dates : list date) (conn_values : list float64) :
  zip dates (spec_clamp <$> conn_values)
  = prod_map id spec_clamp <$> zip dates conn_values.
Proof.
  revert conn_values. induction dates as [|d ds IH]; intros [|v vs]; simpl; try done.
  f_equal. apply IH.
Qed.

End Clamp.

(** C2, as stated, fails: after 5 the value -1 emits no SHUT, while the
    series with -1 replaced by 0 does emit it. *)
Lemma negative_not_equivalent_to_zero :
  ¬ (_get_status_changes [10; 20]%Z (spec_clamp <$> (float64_of_Z <$> [5; -1]%Z))
     = _get_status_changes [10; 20]%Z (float64_of_Z <$> [5; -1]%Z))
  ∧ (20%Z, "SHUT") ∉ _get_status_changes [10; 20]%Z (float64_of_Z <$> [5; -1]%Z).
Proof.
  split.
  - intros Heq. vm_compute in Heq. discriminate Heq.
  - intros Hin. vm_compute in Hin.
    apply list_elem_of_singleton in Hin. discriminate Hin.
Qed.

(** ** Alternation and parity on non-negative series *)

Section Alternation.
Context {date : Type}.
Implicit Types (dvs : list (date * float64)) (prev : float64).
Local Open Scope f64.

Lemma alternates_head statuses :
  alternates true statuses → statuses ≠ [] → head statuses = Some "OPEN".
Proof. destruct statuses as [|s rest]; [done|]. by intros [-> _] _. Qed.

Lemma alternates_consecutive next_open statuses i s s' :
  alternates next_open statuses →
  statuses !! i = Some s → statuses !! S i = Some s' → s ≠ s'.
Proof.
  revert next_open i. induction statuses as [|s0 rest IH]; intros next_open i; [done|].
  intros [Hs0 Hrest] Hi HSi. destruct i as [|i].
  - simpl in Hi, HSi. injection Hi as <-.
    destruct rest as [|s1 rest]; [done|]. simpl in HSi. injection HSi as <-.
    destruct Hrest as [-> _]. subst s0. by destruct next_open.
  - by apply (IH (negb next_open) i).
Qed.

(** The status due next is OPEN exactly when [prev_value == 0]. *)
Lemma events_from_alternates prev dvs :
  nonnegative prev →
  Forall (λ dv, nonnegative dv.2) dvs →
  alternates (prev =? py_zero) (events_from prev dvs).*2.
Proof.
  intros Hprev Hall. revert prev Hprev.
  induction Hall as [|[d v] dvs Hv _ IH]; intros prev Hprev; [done|].
  cbn [snd] in Hv. specialize (IH v Hv).
  cbn [events_from snd]. unfold emitted. cbn [fst snd].
  rewrite (float_nonneg_cases _ Hprev), (float_nonneg_cases _ Hv).
  destruct (prev =? py_zero), (v =? py_zero); simpl in *; auto.
Qed.

(** The parity of the number of events tells whether the scan changed side. *)
Lemma events_from_parity prev dvs :
  nonnegative prev →
  Forall (λ dv, nonnegative dv.2) dvs →
  Nat.odd (length (events_from prev dvs))
  = xorb (prev >? py_zero) (default prev (last dvs.*2) >? py_zero).
Proof.
  intros Hprev Hall. revert prev Hprev.
  induction Hall as [|[d v] dvs Hv _ IH]; intros prev Hprev.
  - simpl. by rewrite xorb_nilpotent.
  - cbn [snd] in Hv. specialize (IH v Hv).
    cbn [events_from snd]. rewrite length_app, Nat.odd_add, IH.
    rewrite fmap_cons, last_cons. cbn [snd].
    replace (default prev match last dvs.*2 with Some y => Some y | None => Some v end)
      with (default v (last dvs.*2)) by (by destruct (last dvs.*2)).
    unfold emitted. cbn [fst snd].
    rewrite (float_nonneg_cases _ Hprev), (float_nonneg_cases _ Hv).
    by destruct (prev =? py_zero), (v =? py_zero),
      (default v (last dvs.*2) >? py_zero).
Qed.
End Alternation.

(** C3: on a series whose values are all non-negative, if at least one
    event is emitted then the first emitted status is OPEN and no two
    consecutive emitted events share a status. *)
Theorem nonnegative_statuses_alternate {date : Type} (dates : list date)
    (conn_values : list float64) :
  Forall nonnegative conn_values →
  _get_status_changes dates conn_values ≠ [] →
  head (_get_status_changes dates conn_values).*2 = Some "OPEN"
  ∧ ∀ i s s',
      (_get_status_changes dates conn_values).*2 !! i = Some s →
      (_get_status_changes dates conn_values).*2 !! S i = Some s' →
      s ≠ s'.
Proof.
  intros Hall Hne.
  assert (Halt : alternates true (_get_status_changes dates conn_values).*2).
  { rewrite get_status_changes_scan.
    apply (events_from_alternates py_zero); [done|].
    by apply (Forall_zip_snd nonnegative). }
  split.
  - apply alternates_head; [done|]. by intros ?%fmap_nil_inv.
  - intros i s s'. by apply alternates_consecutive with true.
Qed.

Lemma nonnegative_statuses_alternate_witness :
  head (_get_status_changes [10; 20; 30; 40]%Z (float64_of_Z <$> [5; 0; 5; 0]%Z)).*2
  = Some "OPEN".
Proof.
  refine (proj1 (nonnegative_statuses_alternate [10; 20; 30; 40]%Z
    (float64_of_Z <$> [5; 0; 5; 0]%Z) _ _)).
  - repeat constructor.
  - by vm_compute.
Defined.

(** C7: on a series of length N with non-negative values the number of
    events is at most N; it is odd if the series ends open (last value > 0,
    after at least one event) and even if it ends shut (last value == 0, or
    no event was ever emitted). *)
Theorem event_count_bound_and_parity {date : Type} (dates : list date)
    (conn_values : list float64) (N : nat) :
  length dates = N → length conn_values = N →
  Forall nonnegative conn_values →
  length (_get_status_changes dates conn_values) ≤ N
  ∧ ((∃ v, last conn_values = Some v ∧ (v >? py_zero)%f64 = true)
      ∧ _get_status_changes dates conn_values ≠ [] →
     Nat.Odd (length (_get_status_changes dates conn_values)))
  ∧ ((∃ v, last conn_values = Some v ∧ (v =? py_zero)%f64 = true)
      ∨ _get_status_changes dates conn_values = [] →
     Nat.Even (length (_get_status_changes dates conn_values))).
Proof.
  intros Hdates Hvalues Hall.
  assert (Hpar : Nat.odd (length (_get_status_changes dates conn_values))
                 = (default py_zero (last conn_values) >? py_zero)%f64).
  { rewrite get_status_changes_scan, (events_from_parity py_zero);
      [|done|by apply (Forall_zip_snd nonnegative)].
    rewrite snd_zip by lia. by rewrite xorb_false_l. }
  split_and!.
  - rewrite get_status_changes_scan.
    etrans; [apply events_from_length|]. rewrite length_zip. lia.
  - intros [(v & Hlast & Hv) _]. apply Nat.odd_spec.
    by rewrite Hpar, Hlast.
  - intros [(v & Hlast & Hv)|Hnil].
    + apply Nat.even_spec. rewrite <-Nat.negb_odd, Hpar, Hlast. simpl.
      by rewrite (float_eq_not_gt _ Hv).
    + rewrite Hnil. by exists 0.
Qed.

Lemma event_count_bound_and_parity_witness :
  length (_get_status_changes [10; 20; 30]%Z (float64_of_Z <$> [0; 5; 5]%Z)) ≤ 3
  ∧ Nat.Odd (length (_get_status_changes [10; 20; 30]%Z (float64_of_Z <$> [0; 5; 5]%Z))).
Proof.
  destruct (event_count_bound_and_parity [10; 20; 30]%Z
    (float64_of_Z <$> [0; 5; 5]%Z) 3) as (Hle & Hodd & _).
  - reflexivity.
  - reflexivity.
  - repeat constructor.
  - split; [exact Hle|]. apply Hodd. split.
    + exists (float64_of_Z 5). by vm_compute.
    + by vm_compute.
Defined.

(** ** Dates of the events *)

Section Dates.
Context {date : Type}.
Implicit Types (dates : list date) (conn_values : list float64) (prev : float64).

Lemma StronglySorted_sublist (R : relation date) (l1 l2 : list date) :
  l1 `sublist_of` l2 → StronglySorted R l2 → StronglySorted R l1.
Proof.
  induction 1 as [|x l1 l2 Hsub IH|x l1 l2 Hsub IH]; intros Hsorted; [done|..].
  - apply StronglySorted_inv in Hsorted as [Hl2 Hx].
    apply SSorted_cons; [by apply IH|].
    apply Forall_forall. intros y Hy.
    rewrite Forall_forall in Hx. apply Hx. by eapply elem_of_sublist.
  - apply StronglySorted_inv in Hsorted as [Hl2 _]. by apply IH.
Qed.

End Dates.

(** ** The loop against the specification's index scan *)

Section Refinement.
Context {date : Type}.
Implicit Types (dates : list date) (conn_values : list float64).

Lemma spec_fold_agree dates dates' conn_values conn_values' (l : list nat) acc :
  (∀ t, t ∈ l → dates !! t = dates' !! t ∧ conn_values !! t = conn_values' !! t) →
  fold_left (spec_step dates conn_values) l acc
  = fold_left (spec_step dates' conn_values') l acc.
Proof.
  revert acc. induction l as [|t l IH]; intros acc Hagree; [done|].
  simpl. rewrite IH by (intros t' Ht'; apply Hagree; by right).
  destruct (Hagree t) as [Hd Hv]; [by left|].
  unfold spec_step, spec_emit. by rewrite Hd, Hv.
Qed.

(** The two scans go through the same states. *)
Lemma spec_fold_loop_state conn_values : ∀ dates,
  length dates = length conn_values →
  fold_left (spec_step dates conn_values) (seq 0 (length conn_values)) ([], py_zero)
  = (status_changes (fold_left loop_body (zip dates conn_values)
                       {| status_changes := []; prev_value := py_zero |}),
     prev_value (fold_left loop_body (zip dates conn_values)
                   {| status_changes := []; prev_value := py_zero |})).
Proof.
  induction conn_values as [|v vs IH] using rev_ind; intros dates Hlen.
  - by destruct dates.
  - destruct dates as [|d ds _] using rev_ind.
    { rewrite length_app in Hlen. simpl in Hlen. lia. }
    rewrite !length_app in Hlen. simpl in Hlen.
    assert (Hlen' : length ds = length vs) by lia.
    rewrite length_app, seq_app, zip_with_app by done.
    rewrite !fold_left_app.
    rewrite (spec_fold_agree _ ds _ vs (seq 0 (length vs))).
    2:{ intros t [_ Ht]%elem_of_seq. simpl in Ht.
        by rewrite !lookup_app_l by lia. }
    rewrite (IH ds Hlen').
    generalize (fold_left loop_body (zip ds vs)
                  {| status_changes := []; prev_value := py_zero |}).
    intros st. simpl.
    unfold spec_step, spec_emit, loop_body. cbn [fst snd].
    rewrite !list_lookup_middle by lia.
    repeat case_match; simpl; by rewrite ?app_nil_r.
Qed.
End Refinement.

(** C1: on equal-length sequences the detector is the scan of the
    specification: indices 0..N-1 in order with [previous_value] initially 0;
    at index t it emits (timestamps[t], OPEN) when values[t] > 0 and
    previous_value == 0, (timestamps[t], SHUT) when previous_value > 0 and
    values[t] == 0, nothing otherwise, then sets previous_value to values[t];
    the result is the emitted events in scan order. *)
Theorem get_status_changes_refines_spec {date : Type} (timestamps : list date)
    (values : list float64) :
  length timestamps = length values →
  _get_status_changes timestamps values = spec_transition_detector timestamps values.
Proof.
  intros Hlen. unfold spec_transition_detector.
  by rewrite spec_fold_loop_state.
Qed.

Lemma get_status_changes_refines_spec_witness :
  _get_status_changes [10; 20; 30; 40]%Z (float64_of_Z <$> [5; 0; 0; 3]%Z)
  = spec_transition_detector [10; 20; 30; 40]%Z (float64_of_Z <$> [5; 0; 0; 3]%Z).
Proof.
  apply (get_status_changes_refines_spec [10; 20; 30; 40]%Z
    (float64_of_Z <$> [5; 0; 0; 3]%Z)).
  reflexivity.
Defined.

(** * Further properties of the detector *)

Section Pointwise.
Context {date : Type}.
Implicit Types (dates : list date) (conn_values : list float64) (prev : float64).
Local Open Scope f64.

Lemma emitted_elem prev (d d0 : date) (v : float64) (s : string) :
  (d, s) ∈ emitted prev (d0, v) ↔ d = d0 ∧ fires prev v s.
Proof.
  unfold emitted, fires. cbn [fst snd].
  destruct (v >? py_zero) eqn:Hv, (prev =? py_zero) eqn:Hp; simpl.
  - rewrite list_elem_of_singleton. split.
    + intros [= -> ->]. split; [done|]. by left.
    + intros [-> [(-> & _)|(_ & _ & Hz)]]; [done|].
      apply float_gt_not_eq in Hv. congruence.
  - destruct (prev >? py_zero) eqn:Hp', (v =? py_zero) eqn:Hz; simpl;
      try (apply float_gt_not_eq in Hv; congruence).
    all: split; [by intros ?%elem_of_nil|]; intros [_ [(_ & _ & ?)|(_ & ? & ?)]]; congruence.
  - destruct (prev >? py_zero) eqn:Hp'; simpl;
      [apply float_gt_not_eq in Hp'; congruence|].
    split; [by intros ?%elem_of_nil|]; intros [_ [(_ & ? & _)|(_ & ? & _)]]; congruence.
  - destruct (prev >? py_zero) eqn:Hp', (v =? py_zero) eqn:Hz; simpl.
    + rewrite list_elem_of_singleton. split.
      * intros [= -> ->]. split; [done|]. by right.
      * intros [-> [(_ & ? & _)|(-> & _)]]; [congruence|done].
    + split; [by intros ?%elem_of_nil|]; intros [_ [(_ & ? & _)|(_ & _ & ?)]]; congruence.
    + split; [by intros ?%elem_of_nil|]; intros [_ [(_ & ? & _)|(_ & ? & _)]]; congruence.
    + split; [by intros ?%elem_of_nil|]; intros [_ [(_ & ? & _)|(_ & ? & _)]]; congruence.
Qed.

Lemma events_from_elem prev dates conn_values (d : date) (s : string) :
  (d, s) ∈ events_from prev (zip dates conn_values)
  ↔ ∃ t v, dates !! t = Some d ∧ conn_values !! t = Some v
      ∧ fires (match t with 0 => prev | S t' => default prev (conn_values !! t') end) v s.
Proof.
  revert prev conn_values.
  induction dates as [|d0 ds IH]; intros prev [|v0 vs]; simpl.
  - split; [by intros ?%elem_of_nil|]. by intros (t & v & ? & _).
  - split; [by intros ?%elem_of_nil|]. by intros (t & v & ? & _).
  - split; [by intros ?%elem_of_nil|]. by intros (t & v & _ & ? & _).
  - rewrite elem_of_app, emitted_elem, IH. split.
    + intros [[-> Hf]|(t & v & Hd & Hv & Hf)].
      * by exists 0, v0.
      * exists (S t), v. split_and!; [done..|].
        destruct t as [|t]; [done|]. simpl.
        destruct (vs !! t) eqn:Ht; [done|].
        apply lookup_ge_None in Ht. apply lookup_lt_Some in Hv. lia.
    + intros (t & v & Hd & Hv & Hf). destruct t as [|t].
      * left. simpl in Hd, Hv. by simplify_eq.
      * right. exists t, v. simpl in Hd, Hv. split_and!; [done..|].
        destruct t as [|t]; [done|]. simpl in Hf.
        destruct (vs !! t) eqn:Ht; [done|].
        apply lookup_ge_None in Ht. apply lookup_lt_Some in Hv. lia.
Qed.

Lemma events_from_zero_prev prev (dvs : list (date * float64)) :
  (prev =? py_zero) = true → events_from prev dvs = events_from py_zero dvs.
Proof.
  intros Hp. destruct dvs as [|dv dvs]; [done|]. simpl. f_equal.
  unfold emitted. by rewrite Hp, (float_eq_not_gt _ Hp).
Qed.

Lemma Sorted_lt_seq (k n : nat) : Sorted lt (seq k n).
Proof.
  revert k. induction n as [|n IH]; intros k; simpl; [constructor|].
  constructor; [apply IH|]. destruct n; simpl; constructor. lia.
Qed.
End Pointwise.

Lemma elem_of_get_status_changes {date : Type} (dates : list date)
    (conn_values : list float64) (d : date) (s : string) :
  (d, s) ∈ _get_status_changes dates conn_values
  ↔ ∃ t v, dates !! t = Some d ∧ conn_values !! t = Some v
      ∧ fires (value_before conn_values t) v s.
Proof.
  rewrite get_status_changes_scan, events_from_elem.
  split; intros (t & v & Hd & Hv & Hf); exists t, v; split_and!; try done.
  all: by destruct t.
Qed.

(** X1: an event (d, s) is returned exactly when some index t has date d and
    the loop condition of status s holds between the value at t and the
    value before it (the literal 0 before the first index). *)
Theorem get_status_changes_elem {date : Type} (dates : list date)
    (conn_values : list float64) (d : date) (s : string) :
  (d, s) ∈ _get_status_changes dates conn_values
  ↔ ∃ t v, dates !! t = Some d ∧ conn_values !! t = Some v
      ∧ fires (value_before conn_values t) v s.
Proof. apply elem_of_get_status_changes. Qed.

(** X2: a value that is neither [> 0] nor [== 0] (a NaN or a negative
    number) produces no event at its own index and none at the next index,
    whatever the value there. *)
Theorem no_event_at_or_after_unordered_value {date : Type} (dates : list date)
    (conn_values : list float64) (t : nat) (v : float64) (s : string) :
  conn_values !! t = Some v →
  (v >? py_zero)%f64 = false → (v =? py_zero)%f64 = false →
  ((t, s) ∉ status_change_indices dates conn_values)
  ∧ ((S t, s) ∉ status_change_indices dates conn_values).
Proof.
  intros Hv Hgt Heq. unfold status_change_indices.
  split; intros (t' & v' & Ht' & Hv' & Hf)%elem_of_get_status_changes;
    apply lookup_seq in Ht' as [Ht' _]; simpl in Ht'; subst t'.
  - rewrite Hv in Hv'. injection Hv' as <-.
    destruct Hf as [(_ & ? & _)|(_ & _ & ?)]; congruence.
  - cbn [value_before] in Hf. rewrite Hv in Hf. simpl in Hf.
    destruct Hf as [(_ & _ & ?)|(_ & ? & _)]; congruence.
Qed.

Lemma no_event_at_or_after_unordered_value_witness :
  ((1, "SHUT") ∉ status_change_indices [10; 20; 30]%Z
                   [float64_of_Z 5; S754_nan; float64_of_Z 0])
  ∧ ((2, "SHUT") ∉ status_change_indices [10; 20; 30]%Z
                     [float64_of_Z 5; S754_nan; float64_of_Z 0]).
Proof.
  apply (no_event_at_or_after_unordered_value [10; 20; 30]%Z
    [float64_of_Z 5; S754_nan; float64_of_Z 0] 1 S754_nan "SHUT"); reflexivity.
Defined.

(** X3: the events of the first n observations are a prefix of the events
    of the whole series: later observations never change earlier events. *)
Theorem get_status_changes_take_prefix {date : Type} (dates : list date)
    (conn_values : list float64) (n : nat) :
  _get_status_changes (take n dates) (take n conn_values)
  `prefix_of` _get_status_changes dates conn_values.
Proof.
  rewrite !get_status_changes_scan, <-zip_with_take.
  rewrite <-(take_drop n (zip dates conn_values)) at 2.
  rewrite events_from_app. by eexists.
Qed.

(** X4: a series can be cut after any index whose value compares equal
    to 0: the events of the whole are the events of the first part followed
    by the events of the second part scanned on its own. *)
Theorem get_status_changes_app_at_zero {date : Type} (dates1 dates2 : list date)
    (values1 values2 : list float64) (z : float64) :
  length dates1 = length values1 →
  last values1 = Some z → (z =? py_zero)%f64 = true →
  _get_status_changes (dates1 ++ dates2) (values1 ++ values2)
  = _get_status_changes dates1 values1 ++ _get_status_changes dates2 values2.
Proof.
  intros Hlen Hlast Hz. rewrite !get_status_changes_scan.
  rewrite zip_with_app by done. rewrite events_from_app. f_equal.
  rewrite snd_zip by lia. rewrite Hlast. simpl.
  by apply events_from_zero_prev.
Qed.

Lemma get_status_changes_app_at_zero_witness :
  _get_status_changes ([10; 20]%Z ++ [30; 40]%Z)
    ((float64_of_Z <$> [5; 0]%Z) ++ (float64_of_Z <$> [3; 0]%Z))
  = _get_status_changes [10; 20]%Z (float64_of_Z <$> [5; 0]%Z)
    ++ _get_status_changes [30; 40]%Z (float64_of_Z <$> [3; 0]%Z).
Proof.
  apply (get_status_changes_app_at_zero [10; 20]%Z [30; 40]%Z
    (float64_of_Z <$> [5; 0]%Z) (float64_of_Z <$> [3; 0]%Z) (float64_of_Z 0));
    reflexivity.
Defined.

(** X5: the triggering indices of the returned events are strictly
    increasing, so an index (a timestep) carries at most one event. *)
Theorem status_change_indices_increasing {date : Type} (dates : list date)
    (conn_values : list float64) :
  StronglySorted lt (status_change_indices dates conn_values).*1.
Proof.
  unfold status_change_indices. rewrite get_status_changes_scan.
  eapply StronglySorted_sublist; [apply events_from_dates_sublist|].
  rewrite fst_zip_take.
  eapply StronglySorted_sublist; [apply sublist_take|].
  apply Sorted_StronglySorted; [|apply Sorted_lt_seq].
  intros x y z. lia.
Qed.

(** * Further properties of the row loop of [df] *)

Lemma df_columns_rows {date : Type} (np_dates_ms : list date)
    (cpi_columns : list cpi_column) (rows : list (row date)) :
  df_columns np_dates_ms rows cpi_columns
  = Returns (rows ++ concat (column_rows np_dates_ms <$> cpi_columns)).
Proof.
  revert rows. induction cpi_columns as [|col cols IH]; intros rows; simpl.
  - by rewrite app_nil_r.
  - unfold df_column, call_get_status_changes. simpl.
    by rewrite fold_left_append_rows, IH, <-app_assoc.
Qed.

Lemma df_app_rows {date : Type} (np_dates_ms : list date)
    (cpi_columns1 cpi_columns2 : list cpi_column) :
  df np_dates_ms (cpi_columns1 ++ cpi_columns2)
  = Returns (concat (column_rows np_dates_ms <$> cpi_columns1)
             ++ concat (column_rows np_dates_ms <$> cpi_columns2)).
Proof. unfold df. by rewrite df_columns_rows, fmap_app, concat_app. Qed.

(** X6: [df] never raises on parsed columns; the frame holds, column after
    column in iteration order, the events of each column tagged with that
    column's well and cell, and frames of concatenated column lists
    concatenate. *)
Theorem df_rows_by_column {date : Type} (np_dates_ms : list date)
    (cpi_columns1 cpi_columns2 : list cpi_column) :
  df np_dates_ms (cpi_columns1 ++ cpi_columns2)
  = Returns (concat (column_rows np_dates_ms <$> cpi_columns1)
             ++ concat (column_rows np_dates_ms <$> cpi_columns2)).
Proof. apply df_app_rows. Qed.

(** X7: the frame has at most one row per column and date. *)
Theorem df_row_count_bound {date : Type} (np_dates_ms : list date)
    (cpi_columns : list cpi_column) :
  ∃ rows, df np_dates_ms cpi_columns = Returns rows
          ∧ length rows ≤ length cpi_columns * length np_dates_ms.
Proof.
  unfold df. rewrite df_columns_rows. eexists; split; [done|]. simpl.
  induction cpi_columns as [|col cols IH]; [simpl; lia|].
  rewrite fmap_cons. cbn [concat length Nat.mul].
  rewrite length_app. unfold column_rows at 1.
  rewrite length_fmap, get_status_changes_scan.
  pose proof (events_from_length py_zero (zip np_dates_ms (vector col))) as Hlen.
  rewrite length_zip in Hlen. lia.
Qed.

(** X8: a column whose values are all [<= 0] (always shut) can be dropped
    from the input without changing the frame. *)
Theorem df_ignores_always_shut_column {date : Type} (np_dates_ms : list date)
    (cpi_columns1 cpi_columns2 : list cpi_column) (col : cpi_column) :
  Forall (λ v, (v <=? py_zero)%f64 = true) (vector col) →
  df np_dates_ms (cpi_columns1 ++ col :: cpi_columns2)
  = df np_dates_ms (cpi_columns1 ++ cpi_columns2).
Proof.
  intros Hall. rewrite !df_app_rows. do 2 f_equal. simpl.
  unfold column_rows at 1. rewrite get_status_changes_scan.
  rewrite events_from_nonpositive; [done..|].
  by apply (Forall_zip_snd (λ v, (v <=? py_zero)%f64 = true)).
Qed.

Lemma df_ignores_always_shut_column_witness :
  df [10; 20]%Z ([long_column] ++ CpiColumn "W2" "2" "2" "2" (float64_of_Z <$> [0; 0]%Z) :: [])
  = df [10; 20]%Z ([long_column] ++ []).
Proof.
  apply (df_ignores_always_shut_column [10; 20]%Z [long_column] []
    (CpiColumn "W2" "2" "2" "2" (float64_of_Z <$> [0; 0]%Z))).
  repeat constructor.
Defined.

(** * Strings: [str.replace] and the UNSMRY file name *)

Section Strings.
Implicit Types (s p old new a b r : string) (c : ascii).

Lemma str_app_nil_l s : "" +:+ s = s.
Proof. reflexivity. Qed.

Lemma str_app_cons c s1 s2 : String c s1 +:+ s2 = String c (s1 +:+ s2).
Proof. reflexivity. Qed.

Lemma str_app_nil_r s : s +:+ "" = s.
Proof. induction s as [|c s IH]; [done|]. by rewrite str_app_cons, IH. Qed.

Lemma str_app_assoc s1 s2 s3 : (s1 +:+ s2) +:+ s3 = s1 +:+ (s2 +:+ s3).
Proof. induction s1 as [|c s1 IH]; [done|]. by rewrite !str_app_cons, IH. Qed.

Lemma str_app_length s1 s2 :
  String.length (s1 +:+ s2) = String.length s1 + String.length s2.
Proof. induction s1 as [|c s1 IH]; [done|]. rewrite str_app_cons. simpl. by rewrite IH. Qed.

Lemma str_app_eq_nil s1 s2 : s1 +:+ s2 = "" → s1 = "" ∧ s2 = "".
Proof. by destruct s1. Qed.

Lemma prefix_true p s : String.prefix p s = true ↔ ∃ r, s = p +:+ r.
Proof.
  revert s. induction p as [|a p IH]; intros s.
  - destruct s; simpl; split; eauto.
  - destruct s as [|b s]; simpl.
    + split; [done|]. by intros [r ?].
    + destruct (ascii_dec a b) as [->|Hne].
      * rewrite IH. split; intros [r Hr]; exists r.
        -- by rewrite str_app_cons, Hr.
        -- rewrite str_app_cons in Hr. by injection Hr.
      * split; [done|]. intros [r Hr]. rewrite str_app_cons in Hr.
        injection Hr as ??. by subst.
Qed.

Lemma str_contains_cons old c s :
  str_contains old (String c s) = String.prefix old (String c s) || str_contains old s.
Proof. reflexivity. Qed.

(** [str_contains] decides the occurrence as a substring. *)
Lemma str_contains_true old s : str_contains old s = true ↔ ∃ a b, s = a +:+ old +:+ b.
Proof.
  induction s as [|c s IH].
  - cbn [str_contains]. rewrite orb_false_r, prefix_true. split.
    + intros [r Hr]. by exists "", r.
    + intros (a & b & Hab). symmetry in Hab.
      apply str_app_eq_nil in Hab as [-> Hab]. exists b. by rewrite Hab.
  - rewrite str_contains_cons, orb_true_iff, prefix_true, IH. split.
    + intros [[r Hr]|(a & b & Hab)].
      * by exists "", r.
      * exists (String c a), b. by rewrite str_app_cons, Hab.
    + intros (a & b & Hab). destruct a as [|c' a].
      * left. by exists b.
      * right. rewrite str_app_cons in Hab. injection Hab as ??. by exists a, b.
Qed.

Lemma str_replace_from_skip old new a b :
  str_replace_from old new (String.length a) (a +:+ b) = str_replace_from old new 0 b.
Proof.
  induction a as [|c a IH]; [by destruct b|]. by rewrite str_app_cons.
Qed.

Lemma str_replace_cons old new c s :
  str_replace old new (String c s)
  = if String.prefix old (String c s)
    then new +:+ str_replace_from old new (String.length old - 1) s
    else String c (str_replace old new s).
Proof. reflexivity. Qed.

(** Where [old] starts, [new] is emitted and the scan resumes after [old]. *)
Lemma str_replace_occurrence old new r :
  old ≠ "" → str_replace old new (old +:+ r) = new +:+ str_replace old new r.
Proof.
  destruct old as [|c old]; [done|]. intros _.
  rewrite str_app_cons, str_replace_cons.
  assert (Hpre : String.prefix (String c old) (String c (old +:+ r)) = true).
  { apply prefix_true. by exists r. }
  rewrite Hpre.
  replace (String.length (String c old) - 1) with (String.length old)
    by (simpl; lia).
  by rewrite str_replace_from_skip.
Qed.

Lemma str_replace_absent old new s :
  str_contains old s = false → str_replace old new s = s.
Proof.
  induction s as [|c s IH]; [done|].
  rewrite str_contains_cons. intros [Hpre Hs]%orb_false_iff.
  by rewrite str_replace_cons, Hpre, IH.
Qed.

(** No occurrence of [".DATA"] starts inside [a] and runs into a [".DATA"]
    that follows [a]: the text has a dot at its start only. *)
Lemma data_no_straddle a b :
  a ≠ "" → str_contains ".DATA" a = false →
  String.prefix ".DATA" (a +:+ ".DATA" +:+ b) = false.
Proof.
  intros Hne Ha. destruct (String.prefix _ _) eqn:Hpre; [|done]. exfalso.
  apply prefix_true in Hpre as [r Hr].
  destruct a as [|c1 [|c2 [|c3 [|c4 [|c5 a]]]]]; [done|..];
    rewrite ?str_app_cons, ?str_app_nil_l in Hr; simplify_eq.
  rewrite str_contains_cons in Ha. apply orb_false_iff in Ha as [Hpre _].
  assert (Hyes : String.prefix ".DATA" (".DATA" +:+ a) = true)
    by (apply prefix_true; by exists a).
  rewrite !str_app_cons, str_app_nil_l in Hyes. congruence.
Qed.

Lemma unsmry_file_app a b :
  str_contains ".DATA" a = false →
  unsmry_file (a +:+ ".DATA" +:+ b) = a +:+ ".UNSMRY" +:+ unsmry_file b.
Proof.
  unfold unsmry_file. induction a as [|c a IH]; intros Ha.
  - rewrite !str_app_nil_l. by apply str_replace_occurrence.
  - pose proof (data_no_straddle (String c a) b) as Hpre.
    rewrite str_contains_cons in Ha. apply orb_false_iff in Ha as [Hc Ha].
    rewrite (str_app_cons c a (".DATA" +:+ b)), (str_app_cons c a (".UNSMRY" +:+ _)).
    rewrite str_replace_cons.
    rewrite (str_app_cons c a (".DATA" +:+ b)) in Hpre. rewrite Hpre.
    + by rewrite IH.
    + done.
    + by rewrite str_contains_cons, Hc, Ha.
Qed.
End Strings.

(** X9: a DATAFILE argument that does not contain [".DATA"] (for instance a
    name without extension, or with a lower-case extension) is used as the
    UNSMRY file name unchanged. *)
Theorem unsmry_file_without_data DATAFILE :
  str_contains ".DATA" DATAFILE = false → unsmry_file DATAFILE = DATAFILE.
Proof. apply str_replace_absent. Qed.

Lemma unsmry_file_without_data_witness : unsmry_file "runs/case.data" = "runs/case.data".
Proof. apply (unsmry_file_without_data "runs/case.data"). reflexivity. Defined.

(** X10: every occurrence of [".DATA"] is replaced, not only a final
    extension: with [".DATA"] absent from [a], the name [a.DATA b] becomes
    [a.UNSMRY] followed by the replacement of [b]; so [base.DATA] becomes
    [base.UNSMRY], and a [".DATA"] in a directory name is rewritten too. *)
Theorem unsmry_file_replaces_every_occurrence (a b : string) :
  str_contains ".DATA" a = false →
  unsmry_file (a +:+ ".DATA" +:+ b) = a +:+ ".UNSMRY" +:+ unsmry_file b
  ∧ unsmry_file (a +:+ ".DATA") = a +:+ ".UNSMRY".
Proof.
  intros Ha. split; [by apply unsmry_file_app|].
  rewrite <-(str_app_nil_r ".DATA"), unsmry_file_app by done.
  by rewrite str_app_nil_r.
Qed.

Lemma unsmry_file_replaces_every_occurrence_witness :
  unsmry_file ("sim" +:+ ".DATA" +:+ "/CASE.DATA") = "sim" +:+ ".UNSMRY" +:+ "/CASE.UNSMRY".
Proof.
  apply (unsmry_file_replaces_every_occurrence "sim" "/CASE.DATA"). reflexivity.
Defined.

Section NoDataLeft.
Implicit Types (s r : string) (c x : ascii).

(** The three ways the scan can start. *)
Lemma unsmry_file_cases s :
  s = ""
  ∨ (∃ r, s = ".DATA" +:+ r ∧ unsmry_file s = ".UNSMRY" +:+ unsmry_file r)
  ∨ (∃ c r, s = String c r ∧ String.prefix ".DATA" s = false
            ∧ unsmry_file s = String c (unsmry_file r)).
Proof.
  destruct s as [|c r]; [by left|]. right.
  destruct (String.prefix ".DATA" (String c r)) eqn:Hpre.
  - left. apply prefix_true in Hpre as [r' Hr']. exists r'. split; [done|].
    rewrite Hr'. by apply str_replace_occurrence.
  - right. exists c, r. split_and!; [done..|].
    unfold unsmry_file. by rewrite str_replace_cons, Hpre.
Qed.

Lemma unsmry_file_head_not_dot s x u :
  unsmry_file s = String x u → x ≠ "."%char →
  ∃ r, s = String x r ∧ u = unsmry_file r.
Proof.
  intros Hs Hx.
  destruct (unsmry_file_cases s) as [->|[(r & -> & Hr)|(c & r & -> & _ & Hr)]].
  - done.
  - rewrite Hr in Hs. rewrite !str_app_cons in Hs. by simplify_eq.
  - rewrite Hr in Hs. simplify_eq. by exists r.
Qed.

Lemma unsmry_file_not_prefixed s : String.prefix ".DATA" (unsmry_file s) = false.
Proof.
  destruct (String.prefix _ _) eqn:Hpre; [|done]. exfalso.
  apply prefix_true in Hpre as [u Hu]. rewrite !str_app_cons, str_app_nil_l in Hu.
  destruct (unsmry_file_cases s) as [->|[(r & -> & Hr)|(c & r1 & -> & Hno & Hr)]].
  - done.
  - rewrite Hr in Hu. rewrite !str_app_cons in Hu. by simplify_eq.
  - rewrite Hr in Hu. injection Hu as -> Hu.
    apply unsmry_file_head_not_dot in Hu as (r2 & -> & Hu); [|done]. symmetry in Hu.
    apply unsmry_file_head_not_dot in Hu as (r3 & -> & Hu); [|done]. symmetry in Hu.
    apply unsmry_file_head_not_dot in Hu as (r4 & -> & Hu); [|done]. symmetry in Hu.
    apply unsmry_file_head_not_dot in Hu as (r5 & -> & Hu); [|done].
    assert (Hyes : String.prefix ".DATA" (".DATA" +:+ r5) = true)
      by (apply prefix_true; by exists r5).
    rewrite !str_app_cons, str_app_nil_l in Hyes. congruence.
Qed.

Lemma unsmry_file_no_data_bounded (n : nat) s :
  String.length s ≤ n → str_contains ".DATA" (unsmry_file s) = false.
Proof.
  revert s. induction n as [|n IH]; intros s Hlen.
  - by destruct s; [|simpl in Hlen; lia].
  - destruct (unsmry_file_cases s) as [->|[(r & -> & Hr)|(c & r & -> & _ & Hr)]].
    + done.
    + rewrite Hr. rewrite str_app_length in Hlen. simpl in Hlen.
      rewrite !str_app_cons, str_app_nil_l, !str_contains_cons.
      rewrite (IH r) by lia. by rewrite orb_false_r.
    + pose proof (unsmry_file_not_prefixed (String c r)) as Hpre.
      rewrite Hr in Hpre |- *. simpl in Hlen.
      rewrite str_contains_cons, Hpre, (IH r) by lia. done.
Qed.
End NoDataLeft.

(** X11: whatever the DATAFILE argument, the UNSMRY file name contains no
    [".DATA"] any more. *)
Theorem unsmry_file_contains_no_data (DATAFILE : string) :
  str_contains ".DATA" (unsmry_file DATAFILE) = false.
Proof. by apply (unsmry_file_no_data_bounded (String.length DATAFILE)). Qed.

(** * Regular expressions: the matcher is the language *)

Section Regex.
Implicit Types (r : regex) (s : string) (c : ascii).

Lemma re_lang_none s : ¬ re_lang re_none s.
Proof. inversion 1. Qed.

Lemma re_lang_eps s : re_lang re_eps s ↔ s = "".
Proof. split; [by inversion 1|intros ->; constructor]. Qed.

Lemma re_lang_char c s : re_lang (re_char c) s ↔ s = String c "".
Proof. split; [by inversion 1|intros ->; constructor]. Qed.

Lemma re_lang_range lo hi s :
  re_lang (re_range lo hi) s ↔ ∃ c, s = String c "" ∧ char_in_range lo hi c = true.
Proof.
  split.
  - inversion 1; subst. eauto.
  - intros (c & -> & Hc). by constructor.
Qed.

Lemma re_lang_alt r1 r2 s : re_lang (re_alt r1 r2) s ↔ re_lang r1 s ∨ re_lang r2 s.
Proof.
  split.
  - inversion 1; subst; auto.
  - intros [H|H]; [by apply lang_alt_l|by apply lang_alt_r].
Qed.

Lemma re_lang_seq r1 r2 s :
  re_lang (re_seq r1 r2) s ↔ ∃ s1 s2, s = s1 +:+ s2 ∧ re_lang r1 s1 ∧ re_lang r2 s2.
Proof.
  split.
  - inversion 1; subst. eauto.
  - intros (s1 & s2 & -> & H1 & H2). by constructor.
Qed.

Lemma re_nullable_spec r : re_nullable r = true ↔ re_lang r "".
Proof.
  induction r as [| |c|lo hi|r1 IH1 r2 IH2|r1 IH1 r2 IH2|r IH]; simpl.
  - split; [done|]. by intros ?%re_lang_none.
  - split; [constructor|done].
  - split; [done|]. by intros ?%re_lang_char.
  - split; [done|]. by intros (c & ? & _)%re_lang_range.
  - rewrite orb_true_iff, IH1, IH2. by rewrite re_lang_alt.
  - rewrite andb_true_iff, IH1, IH2, re_lang_seq. split.
    + intros [H1 H2]. by exists "", "".
    + intros (s1 & s2 & Heq & H1 & H2). symmetry in Heq.
      apply str_app_eq_nil in Heq as [-> ->]. done.
  - split; [constructor|done].
Qed.

(** A non-empty word of [r*] starts with a non-empty word of [r]. *)
Lemma re_lang_star_cons r c s :
  re_lang (re_star r) (String c s) →
  ∃ s1 s2, s = s1 +:+ s2 ∧ re_lang r (String c s1) ∧ re_lang (re_star r) s2.
Proof.
  intros H. remember (re_star r) as r' eqn:Hr'. remember (String c s) as s' eqn:Hs'.
  revert s Hr' Hs'.
  induction H as [| | | | | | |r0 s1 s2 H1 _ H2 IH2]; intros t Hr' Ht; try done.
  injection Hr' as ->. destruct s1 as [|c1 s1].
  - rewrite str_app_nil_l in Ht. by apply IH2.
  - rewrite str_app_cons in Ht. injection Ht as -> <-. eauto.
Qed.

Lemma re_deriv_spec c r s : re_lang (re_deriv c r) s ↔ re_lang r (String c s).
Proof.
  revert s. induction r as [| |c'|lo hi|r1 IH1 r2 IH2|r1 IH1 r2 IH2|r IH]; intros s; simpl.
  - split; by intros ?%re_lang_none.
  - split; [by intros ?%re_lang_none|]. by intros ?%re_lang_eps.
  - destruct (Ascii.eqb c' c) eqn:Hc.
    + apply Ascii.eqb_eq in Hc as ->. rewrite re_lang_eps, re_lang_char.
      split; [by intros ->|]. by intros [= ->].
    + apply Ascii.eqb_neq in Hc. split; [by intros ?%re_lang_none|].
      intros [= ? _]%re_lang_char. by subst.
  - destruct (char_in_range lo hi c) eqn:Hc.
    + rewrite re_lang_eps, re_lang_range. split.
      * intros ->. eauto.
      * by intros (c0 & [= -> ->] & _).
    + split; [by intros ?%re_lang_none|].
      intros (c0 & [= -> ->] & ?)%re_lang_range. congruence.
  - by rewrite !re_lang_alt, IH1, IH2.
  - assert (Hseq : re_lang (re_seq (re_deriv c r1) r2) s ∨
                   (re_lang r1 "" ∧ re_lang (re_deriv c r2) s)
                   ↔ re_lang (re_seq r1 r2) (String c s)).
    { rewrite !re_lang_seq, IH2. split.
      - intros [(s1 & s2 & -> & H1 & H2)|[H1 H2]].
        + exists (String c s1), s2. by rewrite <-IH1.
        + by exists "", (String c s).
      - intros (s1 & s2 & Heq & H1 & H2). destruct s1 as [|c1 s1].
        + rewrite str_app_nil_l in Heq. subst s2. by right.
        + rewrite str_app_cons in Heq. injection Heq as <- ->.
          left. exists s1, s2. by rewrite IH1. }
    destruct (re_nullable r1) eqn:Hnull.
    + rewrite re_lang_alt, <-Hseq. apply re_nullable_spec in Hnull. tauto.
    + rewrite <-Hseq. split; [tauto|]. intros [H|[H _]]; [done|].
      apply re_nullable_spec in H. congruence.
  - rewrite re_lang_seq. split.
    + intros (s1 & s2 & -> & H1 & H2). apply IH in H1.
      rewrite <-str_app_cons. by constructor.
    + intros (s1 & s2 & -> & H1 & H2)%re_lang_star_cons.
      exists s1, s2. by rewrite IH.
Qed.

Lemma re_fullmatch_spec r s : re_fullmatch r s = true ↔ re_lang r s.
Proof.
  revert r. induction s as [|c s IH]; intros r; simpl.
  - apply re_nullable_spec.
  - by rewrite IH, re_deriv_spec.
Qed.
End Regex.

(** * The keys that the pattern selects *)

Section AllChars.
Implicit Types (p q : ascii → bool) (s : string).

Lemma all_chars_app p s1 s2 :
  all_chars p (s1 +:+ s2) = all_chars p s1 && all_chars p s2.
Proof.
  induction s1 as [|c s1 IH]; [done|].
  rewrite str_app_cons. simpl. by rewrite IH, andb_assoc.
Qed.

Lemma all_chars_impl p q s :
  (∀ c, p c = true → q c = true) → all_chars p s = true → all_chars q s = true.
Proof.
  intros Hpq. induction s as [|c s IH]; [done|]. simpl.
  intros [Hc Hs]%andb_true_iff. by rewrite (Hpq c Hc), IH.
Qed.

Lemma str_split_at (n : nat) s :
  n ≤ String.length s → ∃ s1 s2, s = s1 +:+ s2 ∧ String.length s1 = n.
Proof.
  revert s. induction n as [|n IH]; intros s Hn.
  - by exists "", s.
  - destruct s as [|c s]; simpl in Hn; [lia|].
    destruct (IH s) as (s1 & s2 & -> & Hlen); [lia|].
    exists (String c s1), s2. split; [done|]. simpl. by rewrite Hlen.
Qed.
End AllChars.

Section CharClass.
Variables (r : regex) (p : ascii → bool).
Hypothesis one_char : ∀ s, re_lang r s ↔ ∃ c, s = String c "" ∧ p c = true.

Lemma re_lang_star_class s : re_lang (re_star r) s ↔ all_chars p s = true.
Proof.
  split.
  - intros H. remember (re_star r) as r' eqn:Hr'. revert Hr'.
    induction H as [| | | | | | |r0 s1 s2 H1 _ H2 IH2]; intros Hr'; try done.
    injection Hr' as ->. apply one_char in H1 as (c & -> & Hc).
    rewrite str_app_cons, str_app_nil_l. simpl. by rewrite Hc, IH2.
  - induction s as [|c s IH]; [constructor|]. simpl.
    intros [Hc Hs]%andb_true_iff.
    change (String c s) with (String c "" +:+ s).
    constructor; [|by apply IH]. apply one_char. eauto.
Qed.

Lemma re_lang_plus_class s :
  re_lang (re_plus r) s ↔ s ≠ "" ∧ all_chars p s = true.
Proof.
  unfold re_plus. rewrite re_lang_seq. split.
  - intros (s1 & s2 & -> & (c & -> & Hc)%one_char & H2%re_lang_star_class).
    rewrite str_app_cons, str_app_nil_l. simpl. by rewrite Hc, H2.
  - intros [Hne Hs]. destruct s as [|c s]; [done|]. simpl in Hs.
    apply andb_true_iff in Hs as [Hc Hs].
    exists (String c ""), s. split_and!; [done| |by apply re_lang_star_class].
    apply one_char. eauto.
Qed.

Lemma re_lang_times_class (n : nat) s :
  re_lang (re_times n r) s ↔ String.length s = n ∧ all_chars p s = true.
Proof.
  revert s. induction n as [|n IH]; intros s; simpl.
  - rewrite re_lang_eps. split; [by intros ->|]. intros [Hlen _]. by destruct s.
  - rewrite re_lang_seq. split.
    + intros (s1 & s2 & -> & (c & -> & Hc)%one_char & [Hlen H2]%IH).
      rewrite str_app_cons, str_app_nil_l. simpl. by rewrite Hc, H2, Hlen.
    + intros [Hlen Hs]. destruct s as [|c s]; [done|]. simpl in Hlen, Hs.
      apply andb_true_iff in Hs as [Hc Hs].
      exists (String c ""), s. split_and!; [done| |apply IH; split; [lia|done]].
      apply one_char. eauto.
Qed.

Lemma re_lang_upto_class (n : nat) s :
  re_lang (re_upto n r) s ↔ String.length s ≤ n ∧ all_chars p s = true.
Proof.
  revert s. induction n as [|n IH]; intros s; simpl.
  - rewrite re_lang_eps. split; [by intros ->|].
    intros [Hlen _]. destruct s; [done|]. simpl in Hlen. lia.
  - unfold re_opt. rewrite re_lang_alt, re_lang_eps, re_lang_seq. split.
    + intros [->|(s1 & s2 & -> & (c & -> & Hc)%one_char & [Hlen H2]%IH)].
      * split; [simpl; lia|done].
      * rewrite str_app_cons, str_app_nil_l. simpl. rewrite Hc, H2.
        split; [lia|done].
    + intros [Hlen Hs]. destruct s as [|c s]; [by left|]. right.
      simpl in Hlen, Hs. apply andb_true_iff in Hs as [Hc Hs].
      exists (String c ""), s. split_and!; [done| |apply IH; split; [lia|done]].
      apply one_char. eauto.
Qed.

Lemma re_lang_repeat_class (lo hi : nat) s :
  lo ≤ hi →
  re_lang (re_repeat lo hi r) s ↔ lo ≤ String.length s ≤ hi ∧ all_chars p s = true.
Proof.
  intros Hlohi. unfold re_repeat. rewrite re_lang_seq. split.
  - intros (s1 & s2 & -> & [Hl1 H1]%re_lang_times_class & [Hl2 H2]%re_lang_upto_class).
    rewrite str_app_length, all_chars_app, H1, H2. split; [lia|done].
  - intros [Hlen Hs]. destruct (str_split_at lo s) as (s1 & s2 & -> & Hl1); [lia|].
    rewrite str_app_length in Hlen. rewrite all_chars_app in Hs.
    apply andb_true_iff in Hs as [H1 H2]. exists s1, s2. split_and!; [done|..].
    + by apply re_lang_times_class.
    + apply re_lang_upto_class. split; [lia|done].
Qed.
End CharClass.

Section Shape.
Implicit Types (s col : string).

Lemma re_lang_well_class s :
  re_lang well_class s ↔ ∃ c, s = String c "" ∧ is_well_char c = true.
Proof.
  unfold well_class, is_well_char.
  rewrite !re_lang_alt, !re_lang_range, !re_lang_char. split.
  - intros [(c & -> & Hc)|[(c & -> & Hc)|[->| ->]]]; eexists; split; try done.
    + by rewrite Hc.
    + by rewrite Hc, orb_true_r.
  - intros (c & -> & Hc). repeat (apply orb_true_iff in Hc as [Hc|Hc]).
    + left. eauto.
    + right; left. eauto.
    + right; right; left. by apply Ascii.eqb_eq in Hc as <-.
    + right; right; right. by apply Ascii.eqb_eq in Hc as <-.
Qed.

Lemma re_lang_digit_class s :
  re_lang digit_class s ↔ ∃ c, s = String c "" ∧ is_digit c = true.
Proof. apply re_lang_range. Qed.

Lemma re_lang_str p s : re_lang (re_str p) s ↔ s = p.
Proof.
  revert s. induction p as [|c p IH]; intros s; simpl.
  - apply re_lang_eps.
  - rewrite re_lang_seq. split.
    + by intros (s1 & s2 & -> & ->%re_lang_char & ->%IH).
    + intros ->. exists (String c ""), p. split_and!; [done|constructor|by apply IH].
Qed.

Lemma re_lang_dollar s : re_lang re_dollar s ↔ optional_newline s.
Proof.
  unfold re_dollar, re_opt, optional_newline.
  by rewrite re_lang_alt, re_lang_eps, re_lang_char.
Qed.

Lemma re_lang_digits s : re_lang (re_plus digit_class) s ↔ digits s.
Proof. apply (re_lang_plus_class _ _ re_lang_digit_class). Qed.

Lemma re_lang_well_name s : re_lang (re_repeat 1 8 well_class) s ↔ well_name s.
Proof. apply (re_lang_repeat_class _ _ re_lang_well_class); lia. Qed.
End Shape.

Lemma selected_key_shape (col : string) :
  is_cpi_column col = true
  ↔ ∃ w i j k nl, col = cpi_key w i j k nl
      ∧ well_name w ∧ digits i ∧ digits j ∧ digits k ∧ optional_newline nl.
Proof.
  unfold is_cpi_column, cpi_pattern, cpi_key. rewrite re_fullmatch_spec. split.
  - intros (s0 & t0 & -> & ->%re_lang_str & H)%re_lang_seq.
    apply re_lang_seq in H as (w & t1 & -> & Hw%re_lang_well_name & H).
    apply re_lang_seq in H as (s2 & t2 & -> & ->%re_lang_char & H).
    apply re_lang_seq in H as (i & t3 & -> & Hi%re_lang_digits & H).
    apply re_lang_seq in H as (s4 & t4 & -> & ->%re_lang_char & H).
    apply re_lang_seq in H as (j & t5 & -> & Hj%re_lang_digits & H).
    apply re_lang_seq in H as (s6 & t6 & -> & ->%re_lang_char & H).
    apply re_lang_seq in H as (k & nl & -> & Hk%re_lang_digits & Hnl%re_lang_dollar).
    by exists w, i, j, k, nl.
  - intros (w & i & j & k & nl & -> & Hw & Hi & Hj & Hk & Hnl).
    constructor; [by apply re_lang_str|].
    constructor; [by apply re_lang_well_name|].
    constructor; [constructor|].
    constructor; [by apply re_lang_digits|].
    constructor; [constructor|].
    constructor; [by apply re_lang_digits|].
    constructor; [constructor|].
    constructor; [by apply re_lang_digits|by apply re_lang_dollar].
Qed.

(** X12: a key is selected exactly when it reads [CPI:<well>:<i>,<j>,<k>],
    with a well name of 1 to 8 characters among A-Z, 0-9, underscore and
    hyphen and three non-empty digit strings, optionally followed by one
    newline (which the closing [$] admits). *)
Theorem is_cpi_column_shape (col : string) :
  is_cpi_column col = true
  ↔ ∃ w i j k nl, col = cpi_key w i j k nl
      ∧ well_name w ∧ digits i ∧ digits j ∧ digits k ∧ optional_newline nl.
Proof. apply selected_key_shape. Qed.

(** * Splitting a selected key *)

Section Split.
Implicit Types (s a b : string) (sep c : ascii).

Lemma str_split_whole sep s :
  all_chars (λ c, negb (Ascii.eqb c sep)) s = true → str_split sep s = [s].
Proof.
  induction s as [|c s IH]; [done|]. simpl.
  intros [Hc Hs]%andb_true_iff. apply negb_true_iff in Hc. by rewrite Hc, IH.
Qed.

Lemma str_split_app sep a b :
  all_chars (λ c, negb (Ascii.eqb c sep)) a = true →
  str_split sep (a +:+ String sep b) = a :: str_split sep b.
Proof.
  induction a as [|c a IH].
  - intros _. rewrite str_app_nil_l. simpl. by rewrite Ascii.eqb_refl.
  - simpl. intros [Hc Ha]%andb_true_iff. apply negb_true_iff in Hc.
    by rewrite Hc, IH.
Qed.

Lemma well_char_not_colon c : is_well_char c = true → negb (Ascii.eqb c ":") = true.
Proof. destruct c as [[] [] [] [] [] [] [] []]; by vm_compute. Qed.

Lemma digit_not_colon c : is_digit c = true → negb (Ascii.eqb c ":") = true.
Proof. destruct c as [[] [] [] [] [] [] [] []]; by vm_compute. Qed.

Lemma digit_not_comma c : is_digit c = true → negb (Ascii.eqb c ",") = true.
Proof. destruct c as [[] [] [] [] [] [] [] []]; by vm_compute. Qed.

Lemma optional_newline_no sep nl :
  optional_newline nl → Ascii.eqb "010" sep = false →
  all_chars (λ c, negb (Ascii.eqb c sep)) nl = true.
Proof. intros [->| ->] Hsep; [done|]. cbn [all_chars]. by rewrite Hsep. Qed.

(** The two splits of a key of the selected shape. *)
Lemma str_split_cpi_key (w i j k nl : string) :
  well_name w → digits i → digits j → digits k → optional_newline nl →
  str_split ":" (cpi_key w i j k nl)
  = ["CPI"; w; i +:+ "," +:+ j +:+ "," +:+ k +:+ nl]
  ∧ str_split "," (i +:+ "," +:+ j +:+ "," +:+ k +:+ nl) = [i; j; k +:+ nl].
Proof.
  intros [_ Hw] [_ Hi] [_ Hj] [_ Hk] Hnl.
  assert (Hknl : ∀ sep, (∀ c, is_digit c = true → negb (Ascii.eqb c sep) = true) →
                 Ascii.eqb "010" sep = false →
                 all_chars (λ c, negb (Ascii.eqb c sep)) (k +:+ nl) = true).
  { intros sep Hd Hsep. rewrite all_chars_app.
    by rewrite (all_chars_impl _ _ _ Hd Hk), (optional_newline_no sep nl). }
  split.
  - unfold cpi_key.
    change ("CPI:" +:+ w +:+ ":" +:+ i +:+ "," +:+ j +:+ "," +:+ k +:+ nl)
      with ("CPI" +:+ String ":" (w +:+ String ":"
              (i +:+ "," +:+ j +:+ "," +:+ k +:+ nl))).
    rewrite str_split_app by done.
    rewrite str_split_app by (by apply (all_chars_impl _ _ _ well_char_not_colon)).
    rewrite str_split_whole; [done|].
    change (i +:+ "," +:+ j +:+ "," +:+ k +:+ nl)
      with (i +:+ String "," (j +:+ String "," (k +:+ nl))).
    rewrite all_chars_app. cbn [all_chars]. rewrite all_chars_app. cbn [all_chars].
    rewrite (all_chars_impl _ _ _ digit_not_colon Hi).
    rewrite (all_chars_impl _ _ _ digit_not_colon Hj).
    by rewrite (Hknl ":"%char digit_not_colon eq_refl).
  - change (i +:+ "," +:+ j +:+ "," +:+ k +:+ nl)
      with (i +:+ String "," (j +:+ String "," (k +:+ nl))).
    rewrite str_split_app by (by apply (all_chars_impl _ _ _ digit_not_comma)).
    rewrite str_split_app by (by apply (all_chars_impl _ _ _ digit_not_comma)).
    rewrite str_split_whole; [done|]. by apply Hknl; [apply digit_not_comma|].
Qed.
End Split.

Lemma parse_column_selected (vector_of : string → list float64) (col : string) :
  is_cpi_column col = true →
  ∃ w i j k,
    parse_column vector_of col
    = Returns {| well := w; cell_i := i; cell_j := j; cell_k := k;
                 vector := vector_of col |}
    ∧ col = cpi_key w i j k ""
    ∧ well_name w ∧ digits i ∧ digits j
    ∧ ∃ k0 nl, k = k0 +:+ nl ∧ digits k0 ∧ optional_newline nl.
Proof.
  intros (w & i & j & k0 & nl & -> & Hw & Hi & Hj & Hk & Hnl)%selected_key_shape.
  destruct (str_split_cpi_key w i j k0 nl) as [Hcolon Hcomma]; [done..|].
  exists w, i, j, (k0 +:+ nl). split_and!; [|by unfold cpi_key; rewrite str_app_nil_r|done..|by eauto].
  unfold parse_column. rewrite Hcolon. cbn [lookup list_lookup]. by rewrite Hcomma.
Qed.

(** X13: for a selected key neither the indexing of [colsplit] nor the
    unpacking [i, j, k = ...] raises; the key is [CPI:well:i,j,k] for the
    parsed fields, the well name and [i], [j] are as the pattern says, and
    [k] is a digit string that keeps the trailing newline if the key has
    one. *)
Theorem parse_selected_column (vector_of : string → list float64) (col : string) :
  is_cpi_column col = true →
  ∃ w i j k,
    parse_column vector_of col
    = Returns {| well := w; cell_i := i; cell_j := j; cell_k := k;
                 vector := vector_of col |}
    ∧ col = cpi_key w i j k ""
    ∧ well_name w ∧ digits i ∧ digits j
    ∧ ∃ k0 nl, k = k0 +:+ nl ∧ digits k0 ∧ optional_newline nl.
Proof. apply parse_column_selected. Qed.

Lemma parse_selected_column_witness :
  ∃ w i j k,
    parse_column (λ _, []) "CPI:OP_1:10,20,3"
    = Returns {| well := w; cell_i := i; cell_j := j; cell_k := k; vector := [] |}
    ∧ "CPI:OP_1:10,20,3" = cpi_key w i j k "".
Proof.
  destruct (parse_selected_column (λ _, []) "CPI:OP_1:10,20,3" eq_refl)
    as (w & i & j & k & Hparse & Hkey & _).
  by exists w, i, j, k.
Defined.

(** * [df] from the loaded summary *)

Lemma filter_all_true {A : Type} (f : A → bool) (l : list A) :
  Forall (λ x, f x = true) (List.filter f l).
Proof.
  induction l as [|x l IH]; simpl; [constructor|].
  destruct (f x) eqn:Hx; [by constructor|done].
Qed.

Lemma df_keys_parsed {date : Type} (np_dates_ms : list date)
    (vector_of : string → list float64) (keys : list string)
    (cpi_columns : list cpi_column) (rows : list (row date)) :
  Forall2 (λ key col, parse_column vector_of key = Returns col) keys cpi_columns →
  df_keys np_dates_ms vector_of rows keys = df_columns np_dates_ms rows cpi_columns.
Proof.
  intros Hparsed. revert rows.
  induction Hparsed as [|key col keys cols Hkey _ IH]; intros rows; [done|].
  simpl. rewrite Hkey. simpl.
  destruct (df_column np_dates_ms rows col); simpl; [apply IH|done].
Qed.

Lemma selected_keys_parse (vector_of : string → list float64) (keys : list string) :
  Forall (λ key, is_cpi_column key = true) keys →
  ∃ cpi_columns,
    Forall2 (λ key col, parse_column vector_of key = Returns col
                        ∧ key = cpi_key (well col) (cell_i col) (cell_j col) (cell_k col) ""
                        ∧ vector col = vector_of key) keys cpi_columns.
Proof.
  induction 1 as [|key keys Hkey _ [cols IH]]; [by exists []|].
  destruct (parse_column_selected vector_of key Hkey) as (w & i & j & k & Hp & Hk & _).
  eexists (_ :: cols). constructor; [|exact IH]. split_and!; [exact Hp|exact Hk|done].
Qed.

(** X14: [df] never raises, whatever keys the summary has: every selected
    key parses, to a column whose fields rebuild the key and whose vector is
    the key's vector; the frame is that of the row loop on these columns, in
    the order of the selected keys. *)
Theorem df_of_eclsum_frame {date : Type} (eclsum : ecl_sum date) :
  ∃ cpi_columns,
    Forall2 (λ key col, parse_column (numpy_vector eclsum) key = Returns col
                        ∧ key = cpi_key (well col) (cell_i col) (cell_j col) (cell_k col) ""
                        ∧ vector col = numpy_vector eclsum key)
      (List.filter is_cpi_column (column_names eclsum)) cpi_columns
    ∧ df_of_eclsum eclsum = df (numpy_dates eclsum) cpi_columns
    ∧ df_of_eclsum eclsum
      = Returns (concat (column_rows (numpy_dates eclsum) <$> cpi_columns)).
Proof.
  destruct (selected_keys_parse (numpy_vector eclsum)
              (List.filter is_cpi_column (column_names eclsum)))
    as [cols Hcols]; [apply filter_all_true|].
  exists cols. split; [done|].
  assert (Hdf : df_of_eclsum eclsum = df (numpy_dates eclsum) cols).
  { unfold df_of_eclsum, df. apply df_keys_parsed.
    eapply Forall2_impl; [exact Hcols|]. by intros key col (? & _). }
  split; [done|]. rewrite Hdf. unfold df. by rewrite df_columns_rows.
Qed.

(** * The detector's result, index by index *)

Section EventAt.
Context {date : Type}.
Implicit Types (dates : list date) (conn_values : list float64) (prev : float64).

Lemma concat_fmap_nil {A B : Type} (f : A → list B) (l : list A) :
  Forall (λ x, f x = []) l → concat (f <$> l) = [].
Proof. induction 1 as [|x l Hx _ IH]; [done|]. rewrite fmap_cons. simpl. by rewrite Hx, IH. Qed.

(** The scan is the concatenation, in index order, of what each index
    triggers between its own value and the value before it. *)
Lemma events_from_by_index prev dates conn_values :
  events_from prev (zip dates conn_values)
  = concat ((λ t,
      match dates !! t, conn_values !! t with
      | Some d, Some v =>
          emitted (match t with
                   | 0 => prev
                   | S t' => default prev (conn_values !! t')
                   end) (d, v)
      | _, _ => []
      end) <$> seq 0 (length dates)).
Proof.
  revert prev conn_values. induction dates as [|d ds IH]; intros prev [|v vs].
  - done.
  - done.
  - symmetry. apply concat_fmap_nil, Forall_forall. intros t _. by destruct (_ !! t).
  - cbn [zip_with events_from snd length seq]. rewrite fmap_cons. cbn [concat lookup list_lookup].
    f_equal. rewrite IH, <-fmap_S_seq, <-list_fmap_compose. f_equal.
    apply list_fmap_ext. intros _ t _. simpl.
    destruct (ds !! t) as [d'|]; [|done].
    destruct t as [|t]; [done|]. simpl.
    destruct (vs !! S t) as [v'|] eqn:Hv'; [|done].
    destruct (vs !! t) eqn:Ht; [done|].
    apply lookup_ge_None in Ht. apply lookup_lt_Some in Hv'. lia.
Qed.

Lemma get_status_changes_by_index dates conn_values :
  _get_status_changes dates conn_values
  = concat (event_at dates conn_values <$> seq 0 (length dates)).
Proof. by rewrite get_status_changes_scan, events_from_by_index. Qed.

Lemma event_at_beyond dates conn_values (t : nat) :
  length dates `min` length conn_values ≤ t → event_at dates conn_values t = [].
Proof.
  intros Ht. unfold event_at.
  destruct (dates !! t) eqn:Hd; [|done]. destruct (conn_values !! t) eqn:Hv; [|done].
  apply lookup_lt_Some in Hd, Hv. lia.
Qed.

Lemma get_status_changes_by_index_min dates conn_values :
  _get_status_changes dates conn_values
  = concat (event_at dates conn_values
            <$> seq 0 (length dates `min` length conn_values)).
Proof.
  rewrite get_status_changes_by_index.
  replace (length dates)
    with (length dates `min` length conn_values
          + (length dates - length dates `min` length conn_values)) at 1 by lia.
  rewrite seq_app, fmap_app, concat_app.
  rewrite (concat_fmap_nil _ (seq (0 + _) _)); [by rewrite app_nil_r|].
  apply Forall_forall. intros t [Ht _]%elem_of_seq. apply event_at_beyond. lia.
Qed.
End EventAt.

(** C9: the result lists, in index order, for every index t exactly the
    event that the values at t and before t trigger, with the date
    [dates[t]] taken verbatim; so the events' dates form a subsequence of
    the input timestamps, and when the timestamps are strictly increasing the
    events' dates are strictly increasing; [df] appends the rows of a column
    in that order. *)
Theorem event_dates_subsequence {date : Type} (R : relation date)
    (dates : list date) (rows : list (row date)) (col : cpi_column) :
  Transitive R →
  _get_status_changes dates (vector col)
  = concat (event_at dates (vector col) <$> seq 0 (length dates))
  ∧ (_get_status_changes dates (vector col)).*1 `sublist_of` dates
  ∧ (Sorted R dates →
     StronglySorted R (_get_status_changes dates (vector col)).*1)
  ∧ df_column dates rows col
    = Returns (rows ++ (tag_row col <$> _get_status_changes dates (vector col))).
Proof.
  intros Htrans.
  assert (Hsub : (_get_status_changes dates (vector col)).*1 `sublist_of` dates).
  { rewrite get_status_changes_scan.
    etrans; [apply events_from_dates_sublist|].
    rewrite fst_zip_take. apply sublist_take. }
  split_and!; [apply get_status_changes_by_index|done| |].
  - intros Hsorted. apply (StronglySorted_sublist R _ dates Hsub).
    by apply Sorted_StronglySorted.
  - unfold df_column, call_get_status_changes. simpl.
    by rewrite fold_left_append_rows.
Qed.

Lemma event_dates_subsequence_witness :
  _get_status_changes [10; 20; 30; 40]%Z
    (vector (CpiColumn "W1" "1" "1" "1" (float64_of_Z <$> [0; 5; 0; 3]%Z)))
  = [(20%Z, "OPEN"); (30%Z, "SHUT"); (40%Z, "OPEN")]
  ∧ StronglySorted Z.lt
      (_get_status_changes [10; 20; 30; 40]%Z
         (vector (CpiColumn "W1" "1" "1" "1" (float64_of_Z <$> [0; 5; 0; 3]%Z)))).*1.
Proof.
  destruct (event_dates_subsequence Z.lt [10; 20; 30; 40]%Z []
    (CpiColumn "W1" "1" "1" "1" (float64_of_Z <$> [0; 5; 0; 3]%Z)))
    as (Hevents & _ & Hsorted & _).
  - intros x y z. apply Z.lt_trans.
  - split; [by rewrite Hevents|]. apply Hsorted. repeat constructor.
Defined.

(** * The loop as an iteration over [zip] *)

Section Iteration.
Context {date : Type}.
Implicit Types (dates : list date) (conn_values : list float64).
Implicit Types (st : loop_state date).

Lemma for_loop_finishes (fuel : nat) dates conn_values st (n : nat) :
  length (zip dates conn_values) < fuel →
  for_loop fuel (dates, conn_values) st n
  = Some (fold_left loop_body (zip dates conn_values) st,
          n + length (zip dates conn_values)).
Proof.
  revert dates conn_values st n.
  induction fuel as [|fuel IH]; intros dates conn_values st n Hfuel; [lia|].
  destruct dates as [|d ds], conn_values as [|v vs]; simpl;
    try by rewrite Nat.add_0_r.
  simpl in Hfuel. rewrite IH by lia. do 2 f_equal. lia.
Qed.

Lemma for_loop_out_of_fuel (fuel : nat) dates conn_values st (n : nat) :
  fuel ≤ length (zip dates conn_values) →
  for_loop fuel (dates, conn_values) st n = None.
Proof.
  revert dates conn_values st n.
  induction fuel as [|fuel IH]; intros dates conn_values st n Hfuel; [done|].
  destruct dates as [|d ds], conn_values as [|v vs]; simpl in *; try lia.
  apply IH. lia.
Qed.

Lemma run_get_status_changes_fuel (fuel : nat) dates conn_values :
  run_get_status_changes fuel dates conn_values
  = if length dates `min` length conn_values <? fuel
    then Some (_get_status_changes dates conn_values,
               length dates `min` length conn_values)
    else None.
Proof.
  unfold run_get_status_changes. rewrite <-length_zip.
  destruct (_ <? _) eqn:Hfuel.
  - apply Nat.ltb_lt in Hfuel. by rewrite for_loop_finishes.
  - apply Nat.ltb_ge in Hfuel. by rewrite for_loop_out_of_fuel.
Qed.
End Iteration.

(** C10: for any two sequences, of equal length or not, the loop stops by
    itself: with m = min(len(dates), len(conn_values)) the body runs exactly
    m times (m + 1 calls of [next] are needed and suffice) and the function
    returns. It processes exactly the first m index-aligned pairs: the
    result lists, for every index below m in order, the event that index
    triggers, and nothing else; the tail of the longer sequence is ignored,
    and every triggering index is below m. *)
Theorem get_status_changes_total_truncating {date : Type} (dates : list date)
    (conn_values : list float64) :
  let m := length dates `min` length conn_values in
  (∀ fuel, run_get_status_changes fuel dates conn_values
           = if m <? fuel then Some (_get_status_changes dates conn_values, m)
             else None)
  ∧ _get_status_changes dates conn_values
    = concat (event_at dates conn_values <$> seq 0 m)
  ∧ call_get_status_changes dates conn_values
    = Returns (_get_status_changes (take m dates) (take m conn_values))
  ∧ Forall (λ e, e.1 < m) (status_change_indices dates conn_values).
Proof.
  intros m. subst m. split_and!.
  - intros fuel. apply run_get_status_changes_fuel.
  - apply get_status_changes_by_index_min.
  - unfold call_get_status_changes. by rewrite get_status_changes_take_min.
  - apply status_change_indices_bound.
Qed.

(** * Values [<= 0] replaced by 0 *)

Section ClampEquivalence.
Context {date : Type}.
Implicit Types (dvs : list (date * float64)) (p v : float64) (d : date).

Lemma emitted_clamp_same p v d :
  clash_pair p v = false →
  emitted (spec_clamp p) (d, spec_clamp v) = emitted p (d, v).
Proof. destruct p as [[]|[]| |[] ? ?], v as [[]|[]| |[] ? ?]; by vm_compute. Qed.

Lemma emitted_clamp_length p v d :
  length (emitted p (d, v)) ≤ length (emitted (spec_clamp p) (d, spec_clamp v)).
Proof.
  destruct p as [[]|[]| |[] ? ?], v as [[]|[]| |[] ? ?]; vm_compute; lia.
Qed.

Lemma emitted_clamp_clash p v d :
  length (emitted (spec_clamp p) (d, spec_clamp v)) = length (emitted p (d, v)) →
  clash_pair p v = false.
Proof. destruct p as [[]|[]| |[] ? ?], v as [[]|[]| |[] ? ?]; by vm_compute. Qed.

Lemma sign_clash_cons p v (vs : list float64) :
  sign_clash (p :: v :: vs) = clash_pair p v || sign_clash (v :: vs).
Proof. reflexivity. Qed.

Lemma sign_clash_zero (vs : list float64) : sign_clash (py_zero :: vs) = sign_clash vs.
Proof. destruct vs as [|v vs]; [done|]. by rewrite sign_clash_cons. Qed.

Lemma events_from_clamp_length p dvs :
  length (events_from p dvs)
  ≤ length (events_from (spec_clamp p) (prod_map id spec_clamp <$> dvs)).
Proof.
  revert p. induction dvs as [|[d v] dvs IH]; intros p; [done|].
  rewrite fmap_cons. cbn [events_from prod_map id fst snd]. rewrite !length_app.
  pose proof (emitted_clamp_length p v d). specialize (IH v). lia.
Qed.

Lemma events_from_clamp_same p dvs :
  sign_clash (p :: dvs.*2) = false →
  events_from (spec_clamp p) (prod_map id spec_clamp <$> dvs) = events_from p dvs.
Proof.
  revert p. induction dvs as [|[d v] dvs IH]; intros p; [done|].
  rewrite !fmap_cons. cbn [prod_map id fst snd]. rewrite sign_clash_cons.
  intros [Hpv Hrest]%orb_false_iff. cbn [events_from snd].
  by rewrite emitted_clamp_same, IH.
Qed.

Lemma events_from_clamp_clash p dvs :
  length (events_from (spec_clamp p) (prod_map id spec_clamp <$> dvs))
  = length (events_from p dvs) →
  sign_clash (p :: dvs.*2) = false.
Proof.
  revert p. induction dvs as [|[d v] dvs IH]; intros p; [done|].
  rewrite !fmap_cons. cbn [events_from prod_map id fst snd].
  rewrite !length_app, sign_clash_cons. intros Hlen.
  pose proof (emitted_clamp_length p v d). pose proof (events_from_clamp_length v dvs).
  rewrite (emitted_clamp_clash p v d) by lia. apply IH. lia.
Qed.
End ClampEquivalence.

(** C2, amended: a value [<= 0] is treated as 0 except next to a positive
    value. For every equal-length input, replacing every value [<= 0] by
    exactly 0 yields an identical list of events if and only if no negative
    value stands directly after or directly before a positive value. A
    negative value is not equivalent to 0 there: it emits no event at its own
    index, so a transition from a positive to a negative value emits no SHUT,
    and the index after it emits no event either, so a positive value after
    a negative one emits no OPEN. *)
Theorem clamp_equivalence_iff_no_sign_clash {date : Type} (dates : list date)
    (conn_values : list float64) :
  length dates = length conn_values →
  (_get_status_changes dates (spec_clamp <$> conn_values)
   = _get_status_changes dates conn_values
   ↔ sign_clash conn_values = false)
  ∧ (∀ t v s, conn_values !! t = Some v → (v <? py_zero)%f64 = true →
       ((t, s) ∉ status_change_indices dates conn_values)
       ∧ ((S t, s) ∉ status_change_indices dates conn_values)).
Proof.
  intros Hlen. split.
  - rewrite !get_status_changes_scan, zip_fmap_clamp.
    rewrite <-(sign_clash_zero conn_values).
    rewrite <-(snd_zip dates conn_values) at 3 by lia. split.
    + intros Heq. apply events_from_clamp_clash.
      change (spec_clamp py_zero) with py_zero. by rewrite Heq.
    + apply (events_from_clamp_same py_zero).
  - intros t v s Hv [Hgt Heq]%float_lt_not_gt_eq. unfold status_change_indices.
    split; intros (t' & v' & Ht' & Hv' & Hf)%elem_of_get_status_changes;
      apply lookup_seq in Ht' as [Ht' _]; simpl in Ht'; subst t'.
    + rewrite Hv in Hv'. injection Hv' as <-.
      destruct Hf as [(_ & ? & _)|(_ & _ & ?)]; congruence.
    + cbn [value_before] in Hf. rewrite Hv in Hf. simpl in Hf.
      destruct Hf as [(_ & _ & ?)|(_ & ? & _)]; congruence.
Qed.

Lemma clamp_equivalence_iff_no_sign_clash_witness :
  _get_status_changes [10; 20; 30; 40; 50]%Z
    (spec_clamp <$> (float64_of_Z <$> [5; 0; -3; 0; 2]%Z))
  = _get_status_changes [10; 20; 30; 40; 50]%Z (float64_of_Z <$> [5; 0; -3; 0; 2]%Z)
  ∧ ((2, "SHUT") ∉ status_change_indices [10; 20; 30; 40; 50]%Z
                     (float64_of_Z <$> [5; 0; -3; 0; 2]%Z)).
Proof.
  destruct (clamp_equivalence_iff_no_sign_clash [10; 20; 30; 40; 50]%Z
    (float64_of_Z <$> [5; 0; -3; 0; 2]%Z)) as [Hiff Hneg]; [reflexivity|].
  split.
  - apply Hiff. reflexivity.
  - apply (Hneg 2 (float64_of_Z (-3)) "SHUT"); reflexivity.
Defined.
